(** * MyOPL language server: analysis core of [LSP/main.py]

    A shallow embedding of [parse_document] and of the three request
    handlers [definition], [hover] and [completions], together with the
    notification handlers [did_open] and [did_change].

    Modelling conventions.
    - A Python [str] is a [list ascii]; a character is read as the code
      point 0..255 it denotes.  The character classes below are Python's
      ([str.isspace], the line boundaries of [str.splitlines], the [\w] of
      the [re] module on [str] patterns) restricted to that range.
    - Python integers are [Z].
    - A Python [dict] is an insertion-ordered association list: assigning
      to a key that is present replaces the value in place, assigning to a
      new key appends.
    - Code that can raise ([list] indexing, [dict] subscripting) runs in
      the [result] monad. *)

From Stdlib Require Import Ascii String.
From Stdlib Require Import List Bool Arith ZArith NArith Lia.
From Stdlib Require Import Sorted.
Import ListNotations.

Local Open Scope Z_scope.

(** ** Strings *)

Definition str := list ascii.

Definition lit (s : string) : str := list_ascii_of_string s.

Definition str_eqb (a b : str) : bool :=
  if list_eq_dec ascii_dec a b then true else false.

(** [len(xs)] *)
Definition len {A} (xs : list A) : Z := Z.of_nat (length xs).

Definition LF : ascii := ascii_of_nat 10.
Definition CR : ascii := ascii_of_nat 13.
Definition TAB : ascii := ascii_of_nat 9.

Section CharClasses.
Local Open Scope N_scope.

Definition between (lo hi n : N) : bool := (lo <=? n) && (n <=? hi).

(** [str.isspace] on one character. *)
Definition is_space (c : ascii) : bool :=
  let n := N_of_ascii c in
  between 9 13 n || between 28 32 n || (n =? 133) || (n =? 160).

(** The line boundaries recognised by [str.splitlines]. *)
Definition is_linebreak (c : ascii) : bool :=
  let n := N_of_ascii c in
  between 10 13 n || between 28 30 n || (n =? 133).

(** The regex class [[a-zA-Z_]]. *)
Definition is_ident_start (c : ascii) : bool :=
  let n := N_of_ascii c in
  between 65 90 n || between 97 122 n || (n =? 95).

(** The regex class [[a-zA-Z0-9_]]. *)
Definition is_ident_char (c : ascii) : bool :=
  is_ident_start c || between 48 57 (N_of_ascii c).

(** The regex class [\w] for [str] patterns: alphanumeric or underscore. *)
Definition is_word (c : ascii) : bool :=
  let n := N_of_ascii c in
  is_ident_char c
  || (n =? 170) || (n =? 178) || (n =? 179) || (n =? 181) || (n =? 185)
  || (n =? 186) || between 188 190 n
  || between 192 214 n || between 216 246 n || between 248 255 n.

(** [str.upper] on one character.  Only the letters a..z are mapped; the
    source observes [upper] through [startswith("VAR ")] and through
    membership in [KEYWORDS] of a word matched by the regular expression,
    and no code point from 128 to 255 has an upper case beginning with one
    of V, A, R or the space. *)
Definition upper_char (c : ascii) : ascii :=
  let n := N_of_ascii c in
  if between 97 122 n then ascii_of_N (n - 32) else c.

(** [str.lower] on one character, for the letters A..Z. *)
Definition lower_char (c : ascii) : ascii :=
  let n := N_of_ascii c in
  if between 65 90 n then ascii_of_N (n + 32) else c.
End CharClasses.

Definition upper (s : str) : str := map upper_char s.

Definition lower (s : str) : str := map lower_char s.

(** [s.startswith(p)] *)
Fixpoint startswith (p s : str) : bool :=
  match p with
  | [] => true
  | a :: p' =>
      match s with
      | [] => false
      | b :: s' => Ascii.eqb a b && startswith p' s'
      end
  end.

Fixpoint lstrip (s : str) : str :=
  match s with
  | [] => []
  | c :: s' => if is_space c then lstrip s' else s
  end.

Definition rstrip (s : str) : str := rev (lstrip (rev s)).

(** [s.strip()] *)
Definition strip (s : str) : str := rstrip (lstrip s).

(** The first whitespace-delimited word of [s] and what follows it. *)
Fixpoint span_word (s : str) : str * str :=
  match s with
  | [] => ([], [])
  | c :: s' =>
      if is_space c then ([], s)
      else let (w, r) := span_word s' in (c :: w, r)
  end.

(** [s.split(maxsplit=n)]: whitespace runs separate the words; after [n]
    splits the remainder is kept whole, without its leading whitespace. *)
Fixpoint split (maxsplit : nat) (s : str) : list str :=
  match lstrip s with
  | [] => []
  | s1 =>
      match maxsplit with
      | O => [s1]
      | S k => let (w, r) := span_word s1 in w :: split k r
      end
  end.

(** [s.find(sub)], searching from offset [i] of the original string. *)
Fixpoint find_from (i : Z) (sub s : str) : Z :=
  if startswith sub s then i
  else match s with
       | [] => -1
       | _ :: s' => find_from (i + 1) sub s'
       end.

Definition find (sub s : str) : Z := find_from 0 sub s.

(** [s.splitlines(keepends)]: [cur] holds, reversed, the characters of the
    line being read. *)
Fixpoint splitlines_aux (keepends : bool) (cur : str) (s : str) : list str :=
  match s with
  | [] => match cur with [] => [] | _ => [rev cur] end
  | c :: rest =>
      if is_linebreak c then
        match rest with
        | d :: rest' =>
            if Ascii.eqb c CR && Ascii.eqb d LF
            then rev (if keepends then d :: c :: cur else cur)
                 :: splitlines_aux keepends [] rest'
            else rev (if keepends then c :: cur else cur)
                 :: splitlines_aux keepends [] rest
        | [] => [rev (if keepends then c :: cur else cur)]
        end
      else splitlines_aux keepends (c :: cur) rest
  end.

Definition splitlines (keepends : bool) (s : str) : list str :=
  splitlines_aux keepends [] s.

(** [enumerate(xs)] *)
Fixpoint enumerate_from {A} (i : Z) (xs : list A) : list (Z * A) :=
  match xs with
  | [] => []
  | x :: xs' => (i, x) :: enumerate_from (i + 1) xs'
  end.

Definition enumerate {A} (xs : list A) : list (Z * A) := enumerate_from 0 xs.

(** ** The regular expression of the source

    A word boundary, one character of [[a-zA-Z_]], a greedy run of
    [[a-zA-Z0-9_]] (group 1 is the whole match), a word boundary. *)

Record Match := { m_start : Z; m_end : Z; m_group1 : str }.

Definition opt_word (c : option ascii) : bool :=
  match c with Some a => is_word a | None => false end.

(** [\b] between the character [prev] (if any) and the text [s] ahead. *)
Definition word_boundary (prev : option ascii) (s : str) : bool :=
  xorb (opt_word prev) (opt_word (hd_error s)).

(** The greedy run of [[a-zA-Z0-9_]] followed by [\b]: the longest run is tried
    first, and on failure of the final [\b] the star gives characters back
    one at a time.  The result is the number of characters the star keeps. *)
Fixpoint match_star (prev : ascii) (s : str) : option nat :=
  let stop := if word_boundary (Some prev) s then Some O else None in
  match s with
  | c :: s' =>
      if is_ident_char c then
        match match_star c s' with
        | Some n => Some (S n)
        | None => stop
        end
      else stop
  | [] => stop
  end.

(** One attempt of the whole pattern at the current position; the result is
    the length of the match. *)
Definition match_at (prev : option ascii) (s : str) : option nat :=
  if word_boundary prev s then
    match s with
    | c :: s' =>
        if is_ident_start c then option_map S (match_star c s') else None
    | [] => None
    end
  else None.

(** [re.finditer]: matches are searched from left to right; after a match
    the search resumes at its end.  [busy] counts the characters of the
    last match that are still to be passed over. *)
Fixpoint finditer_from (prev : option ascii) (pos : nat) (busy : nat) (s : str)
  : list Match :=
  match s with
  | [] => []
  | c :: s' =>
      match busy with
      | S b => finditer_from (Some c) (S pos) b s'
      | O =>
          match match_at prev s with
          | Some n =>
              {| m_start := Z.of_nat pos;
                 m_end := Z.of_nat (pos + n);
                 m_group1 := firstn n s |}
              :: finditer_from (Some c) (S pos) (Nat.pred n) s'
          | None => finditer_from (Some c) (S pos) O s'
          end
      end
  end.

Definition finditer (line : str) : list Match := finditer_from None 0 0 line.

(** ** Exceptions, lists and dicts *)

Inductive exn := IndexError | KeyError.

Inductive result (A : Type) : Type :=
| Ok (a : A)
| Raise (e : exn).
Arguments Ok {A} a.
Arguments Raise {A} e.

Definition bind {A B} (m : result A) (k : A -> result B) : result B :=
  match m with
  | Ok a => k a
  | Raise e => Raise e
  end.

Notation "x <- m ;; k" := (bind m (fun x => k))
  (at level 61, m at next level, right associativity).

(** A [for] loop whose body updates the loop state and may raise. *)
Fixpoint for_each {A St} (xs : list A) (body : St -> A -> result St) (s : St)
  : result St :=
  match xs with
  | [] => Ok s
  | x :: xs' => s' <- body s x ;; for_each xs' body s'
  end.

(** A [for] loop whose body may [return]: [Some v] leaves the loop (and the
    function) with [v], [None] goes on to the next element; when the list is
    exhausted the function falls through to its final [return None]. *)
Fixpoint for_return {A B} (body : A -> result (option B)) (xs : list A)
  : result (option B) :=
  match xs with
  | [] => Ok None
  | x :: xs' =>
      r <- body x ;;
      match r with
      | Some v => Ok (Some v)
      | None => for_return body xs'
      end
  end.

(** [xs[i]]: a negative index counts from the end, an index out of range
    raises [IndexError]. *)
Definition getitem {A} (xs : list A) (i : Z) : result A :=
  let n := Z.of_nat (length xs) in
  let j := if i <? 0 then i + n else i in
  if (0 <=? j) && (j <? n) then
    match nth_error xs (Z.to_nat j) with
    | Some x => Ok x
    | None => Raise IndexError
    end
  else Raise IndexError.

(** [x in xs] for a list (or a set) of strings. *)
Definition list_in (x : str) (xs : list str) : bool := existsb (str_eqb x) xs.

Definition dict (V : Type) := list (str * V).

Fixpoint dict_get {V} (d : dict V) (k : str) : option V :=
  match d with
  | [] => None
  | (k', v) :: d' => if str_eqb k' k then Some v else dict_get d' k
  end.

(** [k in d] *)
Definition dict_in {V} (k : str) (d : dict V) : bool :=
  match dict_get d k with Some _ => true | None => false end.

(** [d[k]] *)
Definition dict_getitem {V} (d : dict V) (k : str) : result V :=
  match dict_get d k with Some v => Ok v | None => Raise KeyError end.

(** [d[k] = v] *)
Fixpoint dict_set {V} (d : dict V) (k : str) (v : V) : dict V :=
  match d with
  | [] => [(k, v)]
  | (k', v') :: d' =>
      if str_eqb k' k then (k', v) :: d' else (k', v') :: dict_set d' k v
  end.

Definition keys {V} (d : dict V) : list str := map fst d.

(** ** Static tables *)

Definition KEYWORDS : list str :=
  map lit
    ["VAR"; "AND"; "OR"; "NOT"; "IF"; "ELIF"; "ELSE"; "FOR"; "TO";
     "STEP"; "WHILE"; "FUN"; "THEN"; "END"; "RETURN"; "CONTINUE"; "BREAK"]%string.

Definition BUILTIN_FUNCTIONS : dict str :=
  map (fun kv => (lit (fst kv), lit (snd kv)))
    [("print", "Prints the given values");
     ("print_ret", "Prints and returns the given values");
     ("input", "Gets input from user");
     ("input_int", "Gets integer input from user");
     ("clear", "Clears the screen");
     ("is_number", "Checks if value is a number");
     ("is_string", "Checks if value is a string");
     ("is_list", "Checks if value is a list");
     ("is_function", "Checks if value is a function");
     ("append", "Appends item to list");
     ("pop", "Removes and returns item from list");
     ("extend", "Extends list with another list");
     ("len", "Returns length of collection");
     ("run", "Runs code from string")]%string.

Arguments KEYWORDS : simpl never.
Arguments BUILTIN_FUNCTIONS : simpl never.

(** ** Protocol types *)

Record Position := { line : Z; character : Z }.

Record Range := { range_start : Position; range_end : Position }.

Inductive DiagnosticSeverity := Error | Warning | Information | Hint.

Record Diagnostic :=
  { diag_range : Range;
    message : str;
    severity : DiagnosticSeverity;
    source : str }.

Record Location := { loc_uri : str; loc_range : Range }.

Inductive MarkupKind := PlainText | Markdown.

Record MarkupContent := { kind : MarkupKind; value : str }.

Record Hover := { contents : MarkupContent; hover_range : option Range }.

Inductive CompletionItemKind := Variable_ | Keyword | Function_.

Inductive InsertTextFormat := PlainTextFormat | Snippet.

Record CompletionItem :=
  { label : str;
    item_kind : CompletionItemKind;
    documentation : str;
    detail : option str;
    insert_text : option str;
    insert_text_format : option InsertTextFormat }.

(** ** [parse_document] *)

(** A declared variable: declaration line, column, value text. *)
Definition VarInfo : Type := Z * Z * str.

Definition Variables := dict VarInfo.

(** Body of the first loop. *)
Definition collect_line (variables : Variables) (item : Z * str)
  : result Variables :=
  let line_num := fst item in
  let line := strip (snd item) in
  if startswith (lit "VAR ") (upper line) then
    let parts := split 2 line in
    if 2 <=? len parts then
      var_name <- getitem parts 1 ;;
      var_value <- (if 2 <? len parts then getitem parts 2
                    else Ok (lit "undefined")) ;;
      let col := find var_name line in
      Ok (dict_set variables var_name (line_num, col, var_value))
    else Ok variables
  else Ok variables.

(** The condition under which a word is left unflagged. *)
Definition accepted (valid_identifiers : list str) (word : str) : bool :=
  list_in word KEYWORDS
  || list_in word valid_identifiers
  || list_in (upper word) KEYWORDS
  || dict_in word BUILTIN_FUNCTIONS.

Definition undefined_identifier (line_num : Z) (mt : Match) : Diagnostic :=
  let word := m_group1 mt in
  let col := m_start mt in
  {| diag_range :=
       {| range_start := {| line := line_num; character := col |};
          range_end := {| line := line_num; character := col + len word |} |};
     message := lit "Undefined identifier: '" ++ word ++ lit "'";
     severity := Error;
     source := lit "MyOPL" |}.

(** Body of the inner loop of the second pass. *)
Definition validate_match (valid_identifiers : list str) (line_num : Z)
  (diagnostics : list Diagnostic) (mt : Match) : list Diagnostic :=
  if negb (accepted valid_identifiers (m_group1 mt))
  then diagnostics ++ [undefined_identifier line_num mt]
  else diagnostics.

(** Body of the second loop. *)
Definition validate_line (valid_identifiers : list str)
  (diagnostics : list Diagnostic) (item : Z * str) : list Diagnostic :=
  let line_num := fst item in
  let line := strip (snd item) in
  if str_eqb line [] || startswith (lit "//") line then diagnostics
  else fold_left (validate_match valid_identifiers line_num)
         (finditer line) diagnostics.

Definition parse_document (text : str)
  : result (Variables * list Diagnostic) :=
  let lines := splitlines false text in
  variables <- for_each (enumerate lines) collect_line [] ;;
  let valid_identifiers := keys variables ++ keys BUILTIN_FUNCTIONS in
  let diagnostics :=
    fold_left (validate_line valid_identifiers) (enumerate lines) [] in
  Ok (variables, diagnostics).

(** ** Server state and handlers *)

Record DocState := { text : str; variables : Variables }.

(** The part of the protocol library the handlers use:
    [ls.workspace.get_document(uri)] yields a document whose [source] is the
    text last synchronised for [uri]; its [lines] are
    [source.splitlines(True)]. *)
Record Document := { doc_source : str }.

Definition doc_lines (doc : Document) : list str :=
  splitlines true (doc_source doc).

Record LanguageServer := { get_document : str -> Document }.

Definition DocumentStates := dict DocState.

Definition under_cursor (mt : Match) (pos : Position) : bool :=
  (m_start mt <=? character pos) && (character pos <=? m_end mt).

(** Body of the loop of [definition]. *)
Definition definition_match (document_states : DocumentStates) (uri : str)
  (pos : Position) (mt : Match) : result (option Location) :=
  if under_cursor mt pos then
    let var_name := m_group1 mt in
    st <- dict_getitem document_states uri ;;
    if dict_in var_name (variables st) then
      info <- dict_getitem (variables st) var_name ;;
      let '(line_num, col, _) := info in
      Ok (Some
            {| loc_uri := uri;
               loc_range :=
                 {| range_start := {| line := line_num; character := col |};
                    range_end := {| line := line_num;
                                    character := col + len var_name |} |} |})
    else Ok None
  else Ok None.

Definition definition (ls : LanguageServer) (document_states : DocumentStates)
  (uri : str) (pos : Position) : result (option Location) :=
  if negb (dict_in uri document_states) then Ok None
  else
    let doc := get_document ls uri in
    ln <- getitem (doc_lines doc) (line pos) ;;
    for_return (definition_match document_states uri pos) (finditer ln).

Definition variable_hover (word val : str) (pos : Position) (mt : Match) : Hover :=
  {| contents :=
       {| kind := Markdown;
          value := lit "**Variable**: `" ++ word ++ lit "`" ++ [LF; LF]
                   ++ lit "**Value**: `" ++ val ++ lit "`" |};
     hover_range :=
       Some {| range_start := {| line := line pos; character := m_start mt |};
               range_end := {| line := line pos; character := m_end mt |} |} |}.

Definition builtin_hover (word descr : str) : Hover :=
  {| contents :=
       {| kind := Markdown;
          value := lit "**Built-in function**: `" ++ word ++ lit "`"
                   ++ [LF; LF] ++ descr |};
     hover_range := None |}.

Definition keyword_hover (word : str) : Hover :=
  {| contents :=
       {| kind := Markdown;
          value := lit "**Keyword**: `" ++ upper word ++ lit "`" |};
     hover_range := None |}.

(** Body of the loop of [hover]. *)
Definition hover_match (document_states : DocumentStates) (uri : str)
  (pos : Position) (mt : Match) : result (option Hover) :=
  if under_cursor mt pos then
    let word := m_group1 mt in
    st <- dict_getitem document_states uri ;;
    if dict_in word (variables st) then
      info <- dict_getitem (variables st) word ;;
      let '(_, _, val) := info in
      Ok (Some (variable_hover word val pos mt))
    else if dict_in word BUILTIN_FUNCTIONS then
      descr <- dict_getitem BUILTIN_FUNCTIONS word ;;
      Ok (Some (builtin_hover word descr))
    else if list_in (upper word) KEYWORDS then
      Ok (Some (keyword_hover word))
    else Ok None
  else Ok None.

Definition hover (ls : LanguageServer) (document_states : DocumentStates)
  (uri : str) (pos : Position) : result (option Hover) :=
  if negb (dict_in uri document_states) then Ok None
  else
    let doc := get_document ls uri in
    ln <- getitem (doc_lines doc) (line pos) ;;
    for_return (hover_match document_states uri pos) (finditer ln).

Definition variable_item (entry : str * VarInfo) : CompletionItem :=
  let var_name := fst entry in
  let val := snd (snd entry) in
  {| label := var_name;
     item_kind := Variable_;
     documentation := lit "Value: " ++ val;
     detail := Some (lit "Variable: " ++ var_name ++ lit " = " ++ val);
     insert_text := None;
     insert_text_format := None |}.

Definition keyword_item (kw : str) : CompletionItem :=
  {| label := kw;
     item_kind := Keyword;
     documentation := lit "MyOPL keyword";
     detail := None;
     insert_text := Some (lower kw);
     insert_text_format := None |}.

Definition builtin_item (items : list CompletionItem) (func : str)
  : result (list CompletionItem) :=
  descr <- dict_getitem BUILTIN_FUNCTIONS func ;;
  Ok (items ++
      [ {| label := func;
           item_kind := Function_;
           documentation := descr;
           detail := None;
           insert_text := Some (func ++ lit "($0)");
           insert_text_format := Some Snippet |} ]).

Definition completions (document_states : DocumentStates) (uri : str)
  : result (list CompletionItem) :=
  let items := [] in
  items <- (if dict_in uri document_states then
              st <- dict_getitem document_states uri ;;
              Ok (items ++ map variable_item (variables st))
            else Ok items) ;;
  let items := items ++ map keyword_item KEYWORDS in
  for_each (keys BUILTIN_FUNCTIONS) builtin_item items.

(** [did_open] and [did_change] store the new snapshot and hand the
    diagnostics to [publish_diagnostics]; the second component of the result
    is that call's arguments. *)
Definition did_open (document_states : DocumentStates) (uri : str) (txt : str)
  : result (DocumentStates * (str * list Diagnostic)) :=
  r <- parse_document txt ;;
  let '(vars, diagnostics) := r in
  Ok (dict_set document_states uri {| text := txt; variables := vars |},
      (uri, diagnostics)).

Definition did_change (ls : LanguageServer) (document_states : DocumentStates)
  (uri : str) : result (DocumentStates * (str * list Diagnostic)) :=
  let doc := get_document ls uri in
  let current_text := doc_source doc in
  r <- parse_document current_text ;;
  let '(vars, diagnostics) := r in
  Ok (dict_set document_states uri {| text := current_text; variables := vars |},
      (uri, diagnostics)).

(** ** Tokens: what the regular expression matches

    A token of a line is an identifier (a character of [[a-zA-Z_]] followed
    by characters of [[a-zA-Z0-9_]]) with no word character immediately
    before it or after it. *)

Definition last_char (s : str) : option ascii := hd_error (rev s).

Definition is_identifier (w : str) : bool :=
  match w with
  | c :: w' => is_ident_start c && forallb is_ident_char w'
  | [] => false
  end.

Definition is_token (l : str) (start : nat) (w : str) : Prop :=
  exists pre post,
    l = pre ++ w ++ post /\ length pre = start /\
    is_identifier w = true /\
    opt_word (last_char pre) = false /\
    opt_word (hd_error post) = false.

Definition match_of (start : nat) (w : str) : Match :=
  {| m_start := Z.of_nat start;
     m_end := Z.of_nat (start + length w);
     m_group1 := w |}.

(** ** Functional reading of [parse_document]

    The loops of [parse_document] written as folds of pure functions; the
    properties section proves that [parse_document] computes them. *)

(** Line number [ln] of the document, when there is one. *)
Definition line_at (lines : list str) (ln : Z) : option str :=
  if ln <? 0 then None else nth_error lines (Z.to_nat ln).

(** The guard of the first loop: the trimmed line starts with [VAR] in any
    letter case, followed by a space. *)
Definition is_declaration_line (raw : str) : bool :=
  startswith (lit "VAR ") (upper (strip raw)).

(** What a line declares: name, column and value text. *)
Definition declaration (raw : str) : option (str * Z * str) :=
  let ln := strip raw in
  if is_declaration_line raw then
    match split 2 ln with
    | _ :: var_name :: rest =>
        Some (var_name, find var_name ln,
              match rest with
              | var_value :: _ => var_value
              | [] => lit "undefined"
              end)
    | _ => None
    end
  else None.

Definition declare (variables : Variables) (item : Z * str) : Variables :=
  match declaration (snd item) with
  | Some (var_name, col, var_value) =>
      dict_set variables var_name (fst item, col, var_value)
  | None => variables
  end.

Definition symbols_of_lines (lines : list str) : Variables :=
  fold_left declare (enumerate lines) [].

(** Line [ln] holds a declaration of [name], at column [col] with value
    text [val]. *)
Definition declares (lines : list str) (ln : Z) (name : str) (col : Z)
  (val : str) : Prop :=
  exists raw, line_at lines ln = Some raw /\ declaration raw = Some (name, col, val).

(** Lines the second loop passes over: empty after trimming, or comments. *)
Definition skipped (raw : str) : bool :=
  str_eqb (strip raw) [] || startswith (lit "//") (strip raw).

(** The diagnostics of one line, in the order of its tokens. *)
Definition line_diagnostics (valid_identifiers : list str) (item : Z * str)
  : list Diagnostic :=
  if skipped (snd item) then []
  else map (undefined_identifier (fst item))
         (filter (fun mt => negb (accepted valid_identifiers (m_group1 mt)))
            (finditer (strip (snd item)))).

(** The number of whitespace characters [strip] removes in front. *)
Definition indent (raw : str) : nat := (length raw - length (lstrip raw))%nat.

Definition diagnostics_of_lines (lines : list str) : list Diagnostic :=
  flat_map
    (line_diagnostics (keys (symbols_of_lines lines) ++ keys BUILTIN_FUNCTIONS))
    (enumerate lines).

(** ** A session used in examples

    One document, opened once; the workspace of the protocol library holds
    the same text. *)

Definition demo_uri : str := lit "file:///demo.myopl".

Definition serving (txt : str) : LanguageServer :=
  {| get_document := fun _ => {| doc_source := txt |} |}.

Definition opened (txt : str) : DocumentStates :=
  match did_open [] demo_uri txt with
  | Ok (document_states, _) => document_states
  | Raise _ => []
  end.

(** The scenario of the specification, with a cursor on [age] in its
    second line. *)
Definition scenario : str :=
  lit "VAR age = 10" ++ [LF] ++ lit "print(age)" ++ [LF] ++ lit "printx(age)".

Definition scenario_snapshot : DocState :=
  {| text := scenario; variables := [(lit "age", (0, 4, lit "= 10"))] |}.

Definition print_line : str := lit "print(age)" ++ [LF].

Definition on_age : Position := {| line := 1; character := 7 |}.

(** In the scenario, a cursor on the builtin [print] of the second line and
    a cursor on the keyword of the first line. *)
Definition on_print_call : Position := {| line := 1; character := 2 |}.

Definition var_line : str := lit "VAR age = 10" ++ [LF].

Definition on_var : Position := {| line := 0; character := 1 |}.

(** A variable that shadows a builtin, with a cursor on its use. *)
Definition shadowing : str := lit "VAR print = 3" ++ [LF] ++ lit "print(1)".

Definition shadowing_snapshot : DocState :=
  {| text := shadowing; variables := [(lit "print", (0, 4, lit "= 3"))] |}.

Definition on_print : Position := {| line := 1; character := 2 |}.

(** A one-line document ending with a newline, and the position at which an
    editor shows the cursor after that newline. *)
Definition one_line : str := lit "VAR x 5" ++ [LF].

Definition below_last_line : Position := {| line := 1; character := 0 |}.

(** Further sample documents. *)
Definition tab_declaration : str := lit "VAR" ++ [TAB] ++ lit "x 5".

Definition keyword_letter_name : str := lit "VAR A = 1".

Definition indented : str := lit "  foo".

(** The column span of a token as a protocol range on line [ln]. *)
Definition token_range (ln : Z) (start : nat) (w : str) : Range :=
  {| range_start := {| line := ln; character := Z.of_nat start |};
     range_end := {| line := ln; character := Z.of_nat start + len w |} |}.

(** The cursor lies within the closed column span of the token. *)
Definition cursor_on (pos : Position) (start : nat) (w : str) : Prop :=
  Z.of_nat start <= character pos <= Z.of_nat start + len w.

(** ** Notions used by the further properties *)

(** [s[i:j]] for indices that are not negative. *)
Definition slice (s : str) (i j : Z) : str :=
  firstn (Z.to_nat (j - i)) (skipn (Z.to_nat i) s).

Definition nonspace (c : ascii) : bool := negb (is_space c).

(** The text ends here or goes on with whitespace. *)
Definition at_word_end (r : str) : Prop :=
  r = [] \/ exists c r', r = c :: r' /\ is_space c = true.

Definition is_variable_item (it : CompletionItem) : bool :=
  match item_kind it with
  | Variable_ => true
  | _ => false
  end.

(** Where a diagnostic starts, and the order of positions in a document. *)
Definition diag_start (d : Diagnostic) : Z * Z :=
  (line (range_start (diag_range d)), character (range_start (diag_range d))).

Definition before (p q : Z * Z) : Prop :=
  fst p < fst q \/ (fst p = fst q /\ snd p < snd q).

(** A document of comments and blank lines; one comment mentions [VAR]. *)
Definition comments_only : str :=
  lit "// VAR x 5" ++ [LF] ++ [LF] ++ lit "   // VAR y" ++ [LF] ++ lit "  ".

Definition other_uri : str := lit "file:///other.myopl".

(** In the scenario, a cursor after the closing parenthesis of the second
    line. *)
Definition after_call : Position := {| line := 1; character := 10 |}.

(** Case analysis on the 256 characters. *)
Ltac each_char c := destruct c as [[] [] [] [] [] [] [] []].

(** * Properties *)

(** ** Examples *)

Example splitlines_ex :
  splitlines false (lit "ab" ++ [CR; LF] ++ lit "c" ++ [LF; LF]) = [lit "ab"; lit "c"; []].
Proof. reflexivity. Qed.

Example split_ex :
  split 2 (lit "VAR  age =  10 ") = [lit "VAR"; lit "age"; lit "=  10 "].
Proof. reflexivity. Qed.

Example finditer_ex :
  map m_group1 (finditer (lit "printx(age) 1abc a_1")) = [lit "printx"; lit "age"; lit "a_1"].
Proof. reflexivity. Qed.

Example parse_scenario :
  parse_document scenario =
  Ok ([(lit "age", (0, 4, lit "= 10"))],
      [undefined_identifier 2
         {| m_start := 0; m_end := 6; m_group1 := lit "printx" |}]).
Proof. vm_compute. reflexivity. Qed.

(** ** Character classes *)

Lemma ident_start_char c : is_ident_start c = true -> is_ident_char c = true.
Proof. unfold is_ident_char. intros ->. reflexivity. Qed.

Lemma ident_char_word c : is_ident_char c = true -> is_word c = true.
Proof. unfold is_word. intros ->. reflexivity. Qed.

Lemma ident_start_word c : is_ident_start c = true -> is_word c = true.
Proof. intros H. apply ident_char_word, ident_start_char, H. Qed.

Create HintDb chars.
#[local] Hint Resolve ident_start_char ident_char_word ident_start_word : chars.

(** ** Dicts *)

Lemma str_eqb_eq a b : str_eqb a b = true <-> a = b.
Proof.
  unfold str_eqb. destruct (list_eq_dec ascii_dec a b); split; congruence.
Qed.

Lemma str_eqb_refl a : str_eqb a a = true.
Proof. apply str_eqb_eq. reflexivity. Qed.

Lemma str_eqb_neq a b : str_eqb a b = false <-> a <> b.
Proof.
  unfold str_eqb. destruct (list_eq_dec ascii_dec a b); split; congruence.
Qed.

Lemma dict_get_set {V} (d : dict V) k v k' :
  dict_get (dict_set d k v) k' = if str_eqb k k' then Some v else dict_get d k'.
Proof.
  induction d as [|[k0 v0] d IH]; simpl.
  - reflexivity.
  - destruct (str_eqb k0 k) eqn:E0; simpl.
    + apply str_eqb_eq in E0. subst k0.
      destruct (str_eqb k k'); reflexivity.
    + destruct (str_eqb k0 k') eqn:E1.
      * apply str_eqb_eq in E1. subst k0.
        apply str_eqb_neq in E0.
        assert (E2 : str_eqb k k' = false) by (apply str_eqb_neq; congruence).
        rewrite E2. reflexivity.
      * exact IH.
Qed.

Lemma dict_in_keys {V} (d : dict V) k : dict_in k d = true <-> In k (keys d).
Proof.
  unfold dict_in. induction d as [|[k0 v0] d IH]; simpl.
  - split; [discriminate | contradiction].
  - destruct (str_eqb k0 k) eqn:E.
    + apply str_eqb_eq in E. split; auto.
    + apply str_eqb_neq in E. rewrite IH. split; [auto | intros [H|H]; congruence].
Qed.

Lemma keys_dict_set {V} (d : dict V) k v :
  keys (dict_set d k v) = if dict_in k d then keys d else keys d ++ [k].
Proof.
  unfold dict_in. induction d as [|[k0 v0] d IH]; simpl.
  - reflexivity.
  - destruct (str_eqb k0 k) eqn:E; simpl.
    + reflexivity.
    + rewrite IH. destruct (dict_get d k); reflexivity.
Qed.

Lemma NoDup_snoc {A} (l : list A) x : NoDup l -> ~ In x l -> NoDup (l ++ [x]).
Proof.
  intros Hl Hx. induction Hl as [|y l Hy Hl IH]; simpl.
  - constructor; [intros [] | constructor].
  - constructor.
    + rewrite in_app_iff. simpl. intros [H|[H|[]]]; [auto|].
      subst. apply Hx. left. reflexivity.
    + apply IH. intros H. apply Hx. right. exact H.
Qed.

Lemma NoDup_keys_dict_set {V} (d : dict V) k v :
  NoDup (keys d) -> NoDup (keys (dict_set d k v)).
Proof.
  intros H. rewrite keys_dict_set. destruct (dict_in k d) eqn:E; [exact H|].
  apply NoDup_snoc; [exact H|]. rewrite <- dict_in_keys. congruence.
Qed.

Lemma list_in_In x xs : list_in x xs = true <-> In x xs.
Proof.
  unfold list_in. rewrite existsb_exists. split.
  - intros [y [Hy E]]. apply str_eqb_eq in E. subst. exact Hy.
  - intros H. exists x. split; [exact H | apply str_eqb_refl].
Qed.

(** ** Lines and their numbers *)

Lemma len_app {A} (a b : list A) : len (a ++ b) = len a + len b.
Proof. unfold len. rewrite length_app. lia. Qed.

Lemma enumerate_from_snoc {A} (xs : list A) : forall i x,
  enumerate_from i (xs ++ [x]) = enumerate_from i xs ++ [(i + len xs, x)].
Proof.
  induction xs as [|y xs IH]; intros i x; simpl.
  - unfold len. simpl. rewrite Z.add_0_r. reflexivity.
  - rewrite IH.
    replace (i + len (y :: xs)) with (i + 1 + len xs);
      [reflexivity | unfold len; simpl length; lia].
Qed.

Lemma enumerate_snoc {A} (xs : list A) x :
  enumerate (xs ++ [x]) = enumerate xs ++ [(len xs, x)].
Proof. unfold enumerate. rewrite enumerate_from_snoc. reflexivity. Qed.

Lemma line_at_snoc lines x ln :
  line_at (lines ++ [x]) ln =
  if ln =? len lines then Some x else line_at lines ln.
Proof.
  unfold line_at, len. destruct (Z.ltb_spec ln 0) as [H|H].
  - destruct (Z.eqb_spec ln (Z.of_nat (length lines))); [lia | reflexivity].
  - destruct (Z.eqb_spec ln (Z.of_nat (length lines))) as [E|E].
    + subst ln. rewrite Nat2Z.id, nth_error_app2, Nat.sub_diag by lia. reflexivity.
    + destruct (Nat.lt_ge_cases (Z.to_nat ln) (length lines)) as [L|L].
      * rewrite nth_error_app1 by exact L. reflexivity.
      * rewrite nth_error_app2 by exact L.
        assert (Hn : nth_error lines (Z.to_nat ln) = None) by (apply nth_error_None; lia).
        rewrite Hn.
        destruct (Z.to_nat ln - length lines)%nat as [|k] eqn:K; [lia|].
        simpl. destruct k; reflexivity.
Qed.

Lemma line_at_bound lines ln raw : line_at lines ln = Some raw -> 0 <= ln < len lines.
Proof.
  unfold line_at, len. destruct (Z.ltb_spec ln 0) as [H|H]; [discriminate|].
  intros E. assert (Hn : nth_error lines (Z.to_nat ln) <> None) by congruence.
  apply nth_error_Some in Hn. lia.
Qed.

Lemma in_enumerate lines : forall ln raw,
  In (ln, raw) (enumerate lines) <-> line_at lines ln = Some raw.
Proof.
  induction lines as [|x lines IH] using rev_ind; intros ln raw.
  - unfold line_at. simpl. destruct (ln <? 0); [|destruct (Z.to_nat ln)];
      split; try contradiction; discriminate.
  - rewrite enumerate_snoc, in_app_iff, line_at_snoc, IH. simpl.
    destruct (Z.eqb_spec ln (len lines)) as [E|E].
    + split.
      * intros [H | [[= _ ->] | []]]; [|reflexivity].
        apply line_at_bound in H. lia.
      * intros [= ->]. right. left. congruence.
    + split.
      * intros [H | [[= H _] | []]]; [exact H | congruence].
      * auto.
Qed.

(** ** The regular expression and tokens *)

Lemma last_char_snoc pre c : last_char (pre ++ [c]) = Some c.
Proof. unfold last_char. rewrite rev_app_distr. reflexivity. Qed.

Lemma last_char_app_cons p c q : exists d, last_char (p ++ c :: q) = Some d /\ In d (c :: q).
Proof.
  revert p c. induction q as [|e q IH]; intros p c.
  - exists c. rewrite last_char_snoc. split; [reflexivity | left; reflexivity].
  - destruct (IH (p ++ [c]) e) as [d [Hd Hin]].
    exists d. rewrite <- app_assoc in Hd. simpl in Hd. split; [exact Hd | right; exact Hin].
Qed.

Lemma forallb_ident_word w c :
  forallb is_ident_char w = true -> In c w -> is_word c = true.
Proof.
  intros H Hin. rewrite forallb_forall in H. auto with chars.
Qed.

Lemma identifier_chars w c :
  is_identifier w = true -> In c w -> is_word c = true.
Proof.
  destruct w as [|a w']; [discriminate|]. simpl.
  intros H Hin. apply andb_prop in H. destruct H as [Ha Hw].
  destruct Hin as [<- | Hin]; [auto with chars | eapply forallb_ident_word; eauto].
Qed.

(** The star never gives characters back: it succeeds exactly when the
    longest run is followed by a non-word character or the end. *)
Lemma match_star_sound s : forall p n,
  is_word p = true ->
  match_star p s = Some n ->
  forallb is_ident_char (firstn n s) = true /\ length (firstn n s) = n /\
  opt_word (hd_error (skipn n s)) = false.
Proof.
  induction s as [|c t IH]; intros p n Hp; simpl.
  - unfold word_boundary. simpl. rewrite Hp. simpl.
    intros [= <-]. repeat split.
  - destruct (is_ident_char c) eqn:Hc.
    + destruct (match_star c t) as [k|] eqn:Hk.
      * intros [= <-]. destruct (IH c k (ident_char_word _ Hc) Hk) as [H1 [H2 H3]].
        simpl. rewrite Hc, H1, H2. repeat split. exact H3.
      * unfold word_boundary. simpl. rewrite Hp, (ident_char_word _ Hc). discriminate.
    + unfold word_boundary. simpl. rewrite Hp.
      destruct (is_word c) eqn:Hw; simpl; [discriminate|].
      intros [= <-]. simpl. rewrite Hw. repeat split.
Qed.

Lemma match_star_complete w : forall p post,
  is_word p = true ->
  forallb is_ident_char w = true ->
  opt_word (hd_error post) = false ->
  match_star p (w ++ post) = Some (length w).
Proof.
  induction w as [|c w IH]; intros p post Hp Hw Hpost.
  - simpl. destruct post as [|d post]; simpl in *.
    + unfold word_boundary. simpl. rewrite Hp. reflexivity.
    + assert (Hd : is_ident_char d = false).
      { destruct (is_ident_char d) eqn:E; [|reflexivity].
        rewrite (ident_char_word _ E) in Hpost. discriminate. }
      rewrite Hd. unfold word_boundary. simpl. rewrite Hp, Hpost. reflexivity.
  - simpl in Hw. apply andb_prop in Hw. destruct Hw as [Hc Hw].
    simpl. rewrite Hc. rewrite (IH c post (ident_char_word _ Hc) Hw Hpost). reflexivity.
Qed.

Lemma match_at_sound prev s n :
  match_at prev s = Some n ->
  opt_word prev = false /\ is_identifier (firstn n s) = true /\
  length (firstn n s) = n /\ opt_word (hd_error (skipn n s)) = false.
Proof.
  unfold match_at. destruct (word_boundary prev s) eqn:Hb; [|discriminate].
  destruct s as [|c t]; [discriminate|].
  destruct (is_ident_start c) eqn:Hc; [|discriminate].
  destruct (match_star c t) as [k|] eqn:Hk; [|discriminate].
  intros [= <-].
  destruct (match_star_sound t c k (ident_start_word _ Hc) Hk) as [H1 [H2 H3]].
  unfold word_boundary in Hb. simpl in Hb. rewrite (ident_start_word _ Hc) in Hb.
  simpl. rewrite Hc, H1, H2. repeat split; [|exact H3].
  destruct (opt_word prev); [discriminate | reflexivity].
Qed.

Lemma match_at_complete prev w post :
  opt_word prev = false ->
  is_identifier w = true ->
  opt_word (hd_error post) = false ->
  match_at prev (w ++ post) = Some (length w).
Proof.
  intros Hprev Hw Hpost. destruct w as [|c w]; [discriminate|].
  simpl in Hw. apply andb_prop in Hw. destruct Hw as [Hc Hw].
  unfold match_at, word_boundary. simpl. rewrite Hprev, (ident_start_word _ Hc), Hc.
  simpl. rewrite (match_star_complete w c post (ident_start_word _ Hc) Hw Hpost).
  reflexivity.
Qed.

Lemma app_eq_length {A} (a b c d : list A) :
  a ++ b = c ++ d -> length a = length c -> a = c /\ b = d.
Proof.
  revert c. induction a as [|x a IH]; intros [|y c] H Hl; simpl in *; try discriminate.
  - split; [reflexivity | exact H].
  - injection H as -> H. injection Hl as Hl.
    destruct (IH c H Hl) as [-> ->]. split; reflexivity.
Qed.

(** A position inside or just after the word [w1] is preceded by one of its
    characters. *)
Lemma overlap_last_char (pre w1 post p r : str) :
  pre ++ w1 ++ post = p ++ r ->
  (length pre < length p <= length pre + length w1)%nat ->
  exists d, last_char p = Some d /\ In d w1.
Proof.
  intros E [Hlo Hhi].
  assert (Hp : p = pre ++ firstn (length p - length pre) w1).
  { assert (H1 : firstn (length p) (p ++ r) = p).
    { rewrite firstn_app, Nat.sub_diag, firstn_all. simpl. apply app_nil_r. }
    rewrite <- E in H1. rewrite firstn_app in H1.
    rewrite firstn_all2 in H1 by lia.
    rewrite firstn_app in H1.
    replace (length p - length pre - length w1)%nat with 0%nat in H1 by lia.
    simpl in H1. rewrite app_nil_r in H1. symmetry. exact H1. }
  remember (firstn (length p - length pre) w1) as u eqn:Hu.
  destruct u as [|x u].
  - rewrite app_nil_r in Hp. subst p. lia.
  - destruct (last_char_app_cons pre x u) as [d [Hd Hin]].
    exists d. rewrite Hp. split; [exact Hd|].
    rewrite <- (firstn_skipn (length p - length pre) w1). apply in_or_app. left.
    rewrite <- Hu. exact Hin.
Qed.

Lemma token_not_inside l s1 w1 s2 w2 :
  is_token l s1 w1 -> is_token l s2 w2 ->
  (s1 < s2)%nat -> (s1 + length w1 < s2)%nat.
Proof.
  intros (p1 & q1 & E1 & L1 & I1 & B1 & A1) (p2 & q2 & E2 & L2 & I2 & B2 & A2) Hlt.
  destruct (Nat.lt_ge_cases (s1 + length w1) s2) as [H|H]; [exact H|exfalso].
  destruct (overlap_last_char p1 w1 q1 p2 (w2 ++ q2)) as [d [Hd Hin]].
  - rewrite <- E1. exact E2.
  - lia.
  - rewrite Hd in B2. simpl in B2.
    rewrite (identifier_chars _ _ I1 Hin) in B2. discriminate.
Qed.

Lemma token_same_start l s w1 w2 :
  is_token l s w1 -> is_token l s w2 -> w1 = w2.
Proof.
  intros (p1 & q1 & E1 & L1 & I1 & B1 & A1) (p2 & q2 & E2 & L2 & I2 & B2 & A2).
  rewrite E1 in E2. destruct (app_eq_length _ _ _ _ E2) as [-> E]; [lia|].
  pose proof (match_at_complete _ _ _ B1 I1 A1) as M1.
  pose proof (match_at_complete _ _ _ B2 I2 A2) as M2.
  rewrite E, M2 in M1. injection M1 as M1.
  destruct (app_eq_length _ _ _ _ E) as [H _]; [lia | exact H].
Qed.

(** Two tokens of a line whose closed column spans share a position are the
    same token. *)
Lemma token_span_unique l s1 w1 s2 w2 (c : nat) :
  is_token l s1 w1 -> is_token l s2 w2 ->
  (s1 <= c <= s1 + length w1)%nat -> (s2 <= c <= s2 + length w2)%nat ->
  s1 = s2 /\ w1 = w2.
Proof.
  intros T1 T2 C1 C2.
  destruct (Nat.lt_trichotomy s1 s2) as [H|[H|H]].
  - pose proof (token_not_inside _ _ _ _ _ T1 T2 H). lia.
  - subst s2. split; [reflexivity | eapply token_same_start; eauto].
  - pose proof (token_not_inside _ _ _ _ _ T2 T1 H). lia.
Qed.

Lemma finditer_from_sound s : forall pre prev pos busy m,
  prev = last_char pre -> pos = length pre ->
  In m (finditer_from prev pos busy s) ->
  exists start w, is_token (pre ++ s) start w /\ m = match_of start w.
Proof.
  induction s as [|c t IH]; intros pre prev pos busy m Hprev Hpos Hin; simpl in Hin.
  - contradiction.
  - assert (Hstep : forall b, In m (finditer_from (Some c) (S pos) b t) ->
                    exists start w, is_token (pre ++ c :: t) start w /\ m = match_of start w).
    { intros b Hb.
      destruct (IH (pre ++ [c]) (Some c) (S pos) b m) as (start & w & T & E).
      - symmetry. apply last_char_snoc.
      - rewrite length_app. simpl. lia.
      - exact Hb.
      - exists start, w. rewrite <- app_assoc in T. split; assumption. }
    destruct busy as [|b]; [|eauto].
    destruct (match_at prev (c :: t)) as [n|] eqn:Hm; [|eauto].
    destruct Hin as [<- | Hin]; [|eauto].
    destruct (match_at_sound _ _ _ Hm) as (B & I & L & A).
    exists pos, (firstn n (c :: t)). split.
    + exists pre, (skipn n (c :: t)). rewrite firstn_skipn. subst prev.
      repeat split; auto.
    + unfold match_of. rewrite L. reflexivity.
Qed.

Lemma finditer_from_complete s : forall pre prev pos busy start w,
  prev = last_char pre -> pos = length pre ->
  is_token (pre ++ s) start w -> (pos + busy <= start)%nat ->
  In (match_of start w) (finditer_from prev pos busy s).
Proof.
  induction s as [|c t IH]; intros pre prev pos busy start w Hprev Hpos T Hle.
  - exfalso. destruct T as (p & q & E & L & I & _).
    destruct w as [|a w]; [discriminate|].
    apply (f_equal (@length ascii)) in E. rewrite !length_app in E. simpl in E. lia.
  - assert (Hstep : forall b, (S pos + b <= start)%nat ->
                    In (match_of start w) (finditer_from (Some c) (S pos) b t)).
    { intros b Hb. apply (IH (pre ++ [c])).
      - symmetry. apply last_char_snoc.
      - rewrite length_app. simpl. lia.
      - rewrite <- app_assoc. exact T.
      - exact Hb. }
    simpl. destruct busy as [|b]; [|apply Hstep; lia].
    destruct (match_at prev (c :: t)) as [n|] eqn:Hm.
    + destruct (match_at_sound _ _ _ Hm) as (B & I & L & A).
      assert (T0 : is_token (pre ++ c :: t) pos (firstn n (c :: t))).
      { exists pre, (skipn n (c :: t)). rewrite firstn_skipn. subst prev.
        repeat split; auto. }
      destruct (Nat.eq_dec start pos) as [->|Hne].
      * left. rewrite (token_same_start _ _ _ _ T T0).
        unfold match_of. rewrite L. reflexivity.
      * right. apply Hstep.
        assert (Hlt : (pos < start)%nat) by lia.
        pose proof (token_not_inside _ _ _ _ _ T0 T Hlt) as H. rewrite L in H. lia.
    + destruct (Nat.eq_dec start pos) as [->|Hne].
      * exfalso. destruct T as (p & q & E & Lp & I & B & A).
        destruct (app_eq_length _ _ _ _ E) as [<- E']; [lia|].
        rewrite E', Hprev in Hm. rewrite (match_at_complete _ _ _ B I A) in Hm.
        discriminate.
      * apply Hstep. lia.
Qed.

(** [finditer] yields exactly the tokens of the line. *)
Lemma finditer_tokens l m :
  In m (finditer l) <-> exists start w, is_token l start w /\ m = match_of start w.
Proof.
  split.
  - intros H. exact (finditer_from_sound l [] None 0%nat 0%nat m eq_refl eq_refl H).
  - intros (start & w & T & ->).
    apply (finditer_from_complete l [] None 0%nat 0%nat); auto. lia.
Qed.

Lemma finditer_cursor_unique l pos m1 m2 :
  In m1 (finditer l) -> In m2 (finditer l) ->
  under_cursor m1 pos = true -> under_cursor m2 pos = true -> m1 = m2.
Proof.
  intros H1 H2 U1 U2.
  apply finditer_tokens in H1. apply finditer_tokens in H2.
  destruct H1 as (s1 & w1 & T1 & ->). destruct H2 as (s2 & w2 & T2 & ->).
  unfold under_cursor, match_of in *. simpl in *.
  apply andb_prop in U1. apply andb_prop in U2.
  destruct U1 as [A1 B1]. destruct U2 as [A2 B2].
  apply Z.leb_le in A1, B1, A2, B2.
  destruct (token_span_unique l s1 w1 s2 w2 (Z.to_nat (character pos)) T1 T2) as [-> ->];
    [lia | lia | reflexivity].
Qed.

(** ** [parse_document] computes its functional reading *)

Lemma getitem_nth {A} (xs : list A) i x :
  0 <= i -> nth_error xs (Z.to_nat i) = Some x -> getitem xs i = Ok x.
Proof.
  intros Hi Hx. unfold getitem.
  assert (Hn : nth_error xs (Z.to_nat i) <> None) by congruence.
  apply nth_error_Some in Hn.
  destruct (Z.ltb_spec i 0) as [H|_]; [lia|].
  destruct (Z.leb_spec 0 i) as [_|H]; [|lia].
  destruct (Z.ltb_spec i (Z.of_nat (length xs))) as [_|H]; [|lia].
  simpl. rewrite Hx. reflexivity.
Qed.

Lemma collect_line_declare vars item :
  collect_line vars item = Ok (declare vars item).
Proof.
  unfold collect_line, declare, declaration, is_declaration_line.
  destruct (startswith (lit "VAR ") (upper (strip (snd item)))); [|reflexivity].
  destruct (split 2 (strip (snd item))) as [|a [|b [|c rest]]]; try reflexivity.
  assert (H2 : (2 <=? len (a :: b :: c :: rest)) = true).
  { apply Z.leb_le. unfold len. simpl length. lia. }
  assert (H3 : (2 <? len (a :: b :: c :: rest)) = true).
  { apply Z.ltb_lt. unfold len. simpl length. lia. }
  rewrite H2, H3.
  rewrite (getitem_nth (a :: b :: c :: rest) 1 b) by (simpl; (lia || reflexivity)).
  rewrite (getitem_nth (a :: b :: c :: rest) 2 c) by (simpl; (lia || reflexivity)).
  reflexivity.
Qed.

Lemma for_each_collect items : forall vars,
  for_each items collect_line vars = Ok (fold_left declare items vars).
Proof.
  induction items as [|item items IH]; intros vars; simpl.
  - reflexivity.
  - rewrite collect_line_declare. simpl. apply IH.
Qed.

Lemma validate_matches valid n ms : forall acc,
  fold_left (validate_match valid n) ms acc =
  acc ++ map (undefined_identifier n)
           (filter (fun mt => negb (accepted valid (m_group1 mt))) ms).
Proof.
  induction ms as [|mt ms IH]; intros acc; simpl.
  - symmetry. apply app_nil_r.
  - rewrite IH. unfold validate_match.
    destruct (negb (accepted valid (m_group1 mt))); simpl.
    + rewrite <- app_assoc. reflexivity.
    + reflexivity.
Qed.

Lemma validate_line_diagnostics valid acc item :
  validate_line valid acc item = acc ++ line_diagnostics valid item.
Proof.
  unfold validate_line, line_diagnostics, skipped.
  destruct (str_eqb (strip (snd item)) [] || startswith (lit "//") (strip (snd item))).
  - symmetry. apply app_nil_r.
  - apply validate_matches.
Qed.

Lemma validate_lines valid items : forall acc,
  fold_left (validate_line valid) items acc =
  acc ++ flat_map (line_diagnostics valid) items.
Proof.
  induction items as [|item items IH]; intros acc; simpl.
  - symmetry. apply app_nil_r.
  - rewrite IH, validate_line_diagnostics, <- app_assoc. reflexivity.
Qed.

(** [parse_document] never raises: it returns the symbol table and the
    diagnostics of the functional reading. *)
Lemma parse_document_eq txt :
  parse_document txt =
  Ok (symbols_of_lines (splitlines false txt),
      diagnostics_of_lines (splitlines false txt)).
Proof.
  unfold parse_document. rewrite for_each_collect. cbn [bind].
  rewrite validate_lines. reflexivity.
Qed.

(** ** The symbol table *)

Lemma symbols_snoc lines x :
  symbols_of_lines (lines ++ [x]) = declare (symbols_of_lines lines) (len lines, x).
Proof.
  unfold symbols_of_lines. rewrite enumerate_snoc, fold_left_app. reflexivity.
Qed.

Lemma dict_get_declare vars ln raw name :
  dict_get (declare vars (ln, raw)) name =
  match declaration raw with
  | Some (nm, col, val) =>
      if str_eqb nm name then Some (ln, col, val) else dict_get vars name
  | None => dict_get vars name
  end.
Proof.
  unfold declare. simpl. destruct (declaration raw) as [[[nm col] val]|]; [|reflexivity].
  apply dict_get_set.
Qed.

Lemma symbols_NoDup lines : NoDup (keys (symbols_of_lines lines)).
Proof.
  induction lines as [|x lines IH] using rev_ind.
  - constructor.
  - rewrite symbols_snoc. unfold declare. simpl.
    destruct (declaration x) as [[[nm col] val]|]; [|exact IH].
    apply NoDup_keys_dict_set. exact IH.
Qed.

Lemma declares_snoc lines x ln name col val :
  declares (lines ++ [x]) ln name col val <->
  (ln = len lines /\ declaration x = Some (name, col, val)) \/
  declares lines ln name col val.
Proof.
  unfold declares. split.
  - intros (raw & Hl & Hd). rewrite line_at_snoc in Hl.
    destruct (Z.eqb_spec ln (len lines)) as [E|E].
    + injection Hl as <-. left. split; assumption.
    + right. exists raw. split; assumption.
  - intros [[E Hd] | (raw & Hl & Hd)].
    + exists x. rewrite line_at_snoc. subst ln. rewrite Z.eqb_refl. split; [reflexivity | exact Hd].
    + exists raw. rewrite line_at_snoc.
      pose proof (line_at_bound _ _ _ Hl) as B.
      destruct (Z.eqb_spec ln (len lines)); [lia|]. split; assumption.
Qed.

Lemma declares_bound lines ln name col val :
  declares lines ln name col val -> 0 <= ln < len lines.
Proof. intros (raw & Hl & _). eapply line_at_bound; eauto. Qed.

Lemma declares_functional lines ln n1 c1 v1 n2 c2 v2 :
  declares lines ln n1 c1 v1 -> declares lines ln n2 c2 v2 ->
  n1 = n2 /\ c1 = c2 /\ v1 = v2.
Proof.
  intros (r1 & L1 & D1) (r2 & L2 & D2). rewrite L1 in L2. injection L2 as <-.
  rewrite D1 in D2. injection D2 as -> -> ->. repeat split.
Qed.

(** A stored symbol is the last declaration of its name. *)
Lemma symbols_lookup lines : forall name ln col val,
  dict_get (symbols_of_lines lines) name = Some (ln, col, val) ->
  declares lines ln name col val /\
  forall ln' col' val', declares lines ln' name col' val' -> ln' <= ln.
Proof.
  induction lines as [|x lines IH] using rev_ind; intros name ln col val.
  - discriminate.
  - rewrite symbols_snoc, dict_get_declare. intros H.
    assert (Hold : dict_get (symbols_of_lines lines) name = Some (ln, col, val) ->
                   (forall c v, declaration x <> Some (name, c, v)) ->
                   declares (lines ++ [x]) ln name col val /\
                   forall ln' col' val',
                     declares (lines ++ [x]) ln' name col' val' -> ln' <= ln).
    { intros Hg Hx. destruct (IH _ _ _ _ Hg) as [Hd Hmax]. split.
      - apply declares_snoc. right. exact Hd.
      - intros ln' col' val' Hd'. apply declares_snoc in Hd'.
        destruct Hd' as [[_ Hd'] | Hd']; [exfalso; eapply Hx; eauto | eauto]. }
    destruct (declaration x) as [[[nm c] v]|] eqn:Dx.
    + destruct (str_eqb nm name) eqn:E.
      * apply str_eqb_eq in E. subst nm. injection H as <- <- <-. split.
        -- apply declares_snoc. left. split; [reflexivity | exact Dx].
        -- intros ln' col' val' Hd'. apply declares_bound in Hd'.
           rewrite len_app in Hd'. unfold len in Hd' at 2. simpl in Hd'. lia.
      * apply str_eqb_neq in E. apply Hold; [exact H|]. congruence.
    + apply Hold; [exact H | discriminate].
Qed.

Lemma symbols_declared lines : forall ln name col val,
  declares lines ln name col val -> dict_in name (symbols_of_lines lines) = true.
Proof.
  induction lines as [|x lines IH] using rev_ind; intros ln name col val Hd.
  - apply declares_bound in Hd. unfold len in Hd. simpl in Hd. lia.
  - unfold dict_in. rewrite symbols_snoc, dict_get_declare.
    apply declares_snoc in Hd. destruct Hd as [[_ Hx] | Hd].
    + rewrite Hx, str_eqb_refl. reflexivity.
    + apply IH in Hd. unfold dict_in in Hd.
      destruct (declaration x) as [[[nm c] v]|]; [|exact Hd].
      destruct (str_eqb nm name); [reflexivity | exact Hd].
Qed.

Lemma symbols_last_declaration lines name ln col val :
  dict_get (symbols_of_lines lines) name = Some (ln, col, val) <->
  declares lines ln name col val /\
  forall ln' col' val', declares lines ln' name col' val' -> ln' <= ln.
Proof.
  split; [apply symbols_lookup|].
  intros [Hd Hmax].
  pose proof (symbols_declared _ _ _ _ _ Hd) as Hin. unfold dict_in in Hin.
  destruct (dict_get (symbols_of_lines lines) name) as [[[ln0 c0] v0]|] eqn:G;
    [|discriminate].
  destruct (symbols_lookup _ _ _ _ _ G) as [Hd0 Hmax0].
  assert (ln0 = ln) by (apply Z.le_antisymm; eauto). subst ln0.
  destruct (declares_functional _ _ _ _ _ _ _ _ Hd Hd0) as (_ & -> & ->).
  reflexivity.
Qed.

(** ** The diagnostics *)

Lemma in_diagnostics lines d :
  In d (diagnostics_of_lines lines) <->
  exists ln raw start w,
    line_at lines ln = Some raw /\ skipped raw = false /\
    is_token (strip raw) start w /\
    accepted (keys (symbols_of_lines lines) ++ keys BUILTIN_FUNCTIONS) w = false /\
    d = undefined_identifier ln (match_of start w).
Proof.
  unfold diagnostics_of_lines. rewrite in_flat_map. split.
  - intros ([ln raw] & Hitem & Hd). apply in_enumerate in Hitem.
    unfold line_diagnostics in Hd. cbn [fst snd] in Hd.
    destruct (skipped raw) eqn:Hs; [contradiction|].
    apply in_map_iff in Hd. destruct Hd as (mt & <- & Hmt).
    apply filter_In in Hmt. destruct Hmt as [Hmt Hacc].
    apply finditer_tokens in Hmt. destruct Hmt as (start & w & T & ->).
    apply negb_true_iff in Hacc.
    exists ln, raw, start, w. repeat split; assumption.
  - intros (ln & raw & start & w & Hl & Hs & T & Hacc & ->).
    exists (ln, raw). split; [apply in_enumerate; exact Hl|].
    unfold line_diagnostics. cbn [fst snd]. rewrite Hs.
    apply in_map. apply filter_In. split.
    + apply finditer_tokens. eauto.
    + cbn [m_group1 match_of]. rewrite Hacc. reflexivity.
Qed.

Lemma declared_name_accepted (vars : Variables) name :
  dict_in name vars = true ->
  accepted (keys vars ++ keys BUILTIN_FUNCTIONS) name = true.
Proof.
  intros H. unfold accepted.
  assert (Hin : list_in name (keys vars ++ keys BUILTIN_FUNCTIONS) = true).
  { apply list_in_In, in_or_app. left. apply dict_in_keys. exact H. }
  rewrite Hin. rewrite orb_true_r. reflexivity.
Qed.

Lemma undefined_message_inj ln mt name :
  message (undefined_identifier ln mt)
  = lit "Undefined identifier: '" ++ name ++ lit "'" ->
  m_group1 mt = name.
Proof.
  unfold undefined_identifier. cbn [message]. intros H.
  apply app_inv_head in H. apply app_inv_tail in H. exact H.
Qed.

(** C2. The symbol table holds each name once; the entry stored for a name
    is that of its last declaration in document order; and no diagnostic, on
    a declaration line or elsewhere, reports a declared name as
    undefined. *)
Theorem redeclaration_last_wins txt :
  exists vars diags,
    parse_document txt = Ok (vars, diags) /\
    NoDup (keys vars) /\
    (forall name ln col val,
       dict_get vars name = Some (ln, col, val) <->
       declares (splitlines false txt) ln name col val /\
       forall ln' col' val',
         declares (splitlines false txt) ln' name col' val' -> ln' <= ln) /\
    (forall name ln col val,
       declares (splitlines false txt) ln name col val ->
       forall d, In d diags ->
         message d <> lit "Undefined identifier: '" ++ name ++ lit "'").
Proof.
  set (lines := splitlines false txt).
  exists (symbols_of_lines lines), (diagnostics_of_lines lines).
  split; [apply parse_document_eq|]. split; [apply symbols_NoDup|].
  split; [intros; apply symbols_last_declaration|].
  intros name ln col val Hd d Hin Hmsg.
  apply in_diagnostics in Hin.
  destruct Hin as (ln' & raw & start & w & _ & _ & _ & Hacc & ->).
  apply undefined_message_inj in Hmsg. simpl in Hmsg. subst w.
  rewrite declared_name_accepted in Hacc; [discriminate|].
  eapply symbols_declared; eauto.
Qed.

(** C9. [parse_document] never raises, whatever the text, and what it
    returns depends on the text alone: whatever the store holds and
    whichever document is concerned, [did_open] and [did_change] on the same
    text store the same symbol table and publish the same list of
    diagnostics, in the same order. *)
Theorem parse_document_total_and_pure txt :
  exists vars diags,
    parse_document txt = Ok (vars, diags) /\
    forall ds1 ds2 uri1 uri2,
    exists ds1' ds2',
      did_open ds1 uri1 txt = Ok (ds1', (uri1, diags)) /\
      did_change (serving txt) ds2 uri2 = Ok (ds2', (uri2, diags)) /\
      dict_get ds1' uri1 = Some {| text := txt; variables := vars |} /\
      dict_get ds2' uri2 = Some {| text := txt; variables := vars |}.
Proof.
  exists (symbols_of_lines (splitlines false txt)),
         (diagnostics_of_lines (splitlines false txt)).
  split; [apply parse_document_eq|].
  intros ds1 ds2 uri1 uri2. unfold did_open, did_change.
  cbn [get_document serving doc_source].
  rewrite parse_document_eq. cbn [bind].
  do 2 eexists. split; [reflexivity|]. split; [reflexivity|].
  rewrite !dict_get_set, !str_eqb_refl. split; reflexivity.
Qed.

(** ** Declaration lines *)

Lemma is_space_upper_char c : is_space (upper_char c) = is_space c.
Proof. each_char c; reflexivity. Qed.

Lemma lstrip_head s c r : lstrip s = c :: r -> is_space c = false.
Proof.
  induction s as [|a s IH]; simpl; [discriminate|].
  destruct (is_space a) eqn:E; [exact IH|]. intros [= <- _]. exact E.
Qed.

Lemma lstrip_nonspace s e : In e s -> is_space e = false -> lstrip s <> [].
Proof.
  induction s as [|a s IH]; simpl; [contradiction|].
  intros [-> | Hin] He.
  - rewrite He. discriminate.
  - destruct (is_space a); [auto | discriminate].
Qed.

Lemma lstrip_decompose s :
  exists lead, s = lead ++ lstrip s /\ forallb is_space lead = true.
Proof.
  induction s as [|c s (lead & E & H)]; simpl.
  - exists []. split; reflexivity.
  - destruct (is_space c) eqn:Hc.
    + exists (c :: lead). simpl. rewrite Hc, H. split; [congruence | reflexivity].
    + exists []. split; reflexivity.
Qed.

(** A trimmed line that is not empty ends with a character that is not
    whitespace. *)
Lemma strip_last s :
  strip s <> [] -> exists e, last_char (strip s) = Some e /\ is_space e = false.
Proof.
  unfold strip, rstrip, last_char. rewrite rev_involutive.
  destruct (lstrip (rev (lstrip s))) as [|e r] eqn:E.
  - intros H. exfalso. apply H. reflexivity.
  - intros _. exists e. split; [reflexivity | eapply lstrip_head; eauto].
Qed.

Lemma split_S k s :
  split (S k) s =
  match lstrip s with
  | [] => []
  | c :: s1 => let (w, r) := span_word (c :: s1) in w :: split k r
  end.
Proof. simpl. destruct (lstrip s); reflexivity. Qed.

Lemma declaration_line_shape l :
  startswith (lit "VAR ") (upper l) = true ->
  exists a b c d t,
    l = a :: b :: c :: d :: t /\
    is_space a = false /\ is_space b = false /\ is_space c = false /\
    is_space d = true /\ upper [a; b; c] = lit "VAR".
Proof.
  unfold lit.
  destruct l as [|a [|b [|c [|d t]]]];
    cbn [upper map list_ascii_of_string startswith];
    rewrite ?andb_false_r; try discriminate.
  rewrite !andb_true_iff, !Ascii.eqb_eq. intros (Ha & Hb & Hc & Hd & _).
  exists a, b, c, d, t. split; [reflexivity|].
  rewrite <- (is_space_upper_char a), <- (is_space_upper_char b),
          <- (is_space_upper_char c), <- (is_space_upper_char d).
  rewrite <- Ha, <- Hb, <- Hc, <- Hd. repeat split.
Qed.

(** On a declaration line [split] always finds the keyword and a name. *)
Lemma declaration_line_parts raw :
  is_declaration_line raw = true ->
  exists kw name rest,
    split 2 (strip raw) = kw :: name :: rest /\ upper kw = lit "VAR".
Proof.
  unfold is_declaration_line. intros H.
  destruct (declaration_line_shape _ H) as (a & b & c & d & t & E & Ha & Hb & Hc & Hd & Hkw).
  assert (Hne : strip raw <> []) by (rewrite E; discriminate).
  destruct (strip_last raw Hne) as (e & He & Hs). rewrite E in *.
  assert (Ht : lstrip t <> []).
  { destruct t as [|x t'].
    - unfold last_char in He. simpl in He. injection He as <-. congruence.
    - destruct (last_char_app_cons [a; b; c; d] x t') as (e' & He' & Hin).
      simpl in He'. rewrite He in He'. injection He' as <-.
      eapply lstrip_nonspace; eauto. }
  rewrite split_S. cbn [lstrip]. rewrite Ha.
  cbn [span_word]. rewrite Ha, Hb, Hc, Hd.
  rewrite split_S. cbn [lstrip]. rewrite Hd.
  destruct (lstrip t) as [|x s1] eqn:Et; [congruence|].
  destruct (span_word (x :: s1)) as [w r].
  exists [a; b; c], w, (split 0 r). split; [reflexivity | exact Hkw].
Qed.

Lemma declaration_of_parts raw kw name rest :
  is_declaration_line raw = true ->
  split 2 (strip raw) = kw :: name :: rest ->
  declaration raw =
  Some (name, find name (strip raw),
        match rest with v :: _ => v | [] => lit "undefined" end).
Proof.
  intros H E. unfold declaration. rewrite H, E. reflexivity.
Qed.

Lemma declaration_inv raw name col val :
  declaration raw = Some (name, col, val) ->
  is_declaration_line raw = true /\
  exists kw rest, split 2 (strip raw) = kw :: name :: rest.
Proof.
  unfold declaration. destruct (is_declaration_line raw); [|discriminate].
  destruct (split 2 (strip raw)) as [|kw [|nm rest]]; try discriminate.
  intros [= <- _ _]. split; [reflexivity|]. eauto.
Qed.

(** C5 (as stated, fails). The line ["VAR<TAB>x 5"] has [VAR] as its first
    word and two words after it, yet no symbol is recorded: the keyword is
    followed by a tab, not a space. *)
Lemma tab_after_keyword_not_recorded :
  split 2 (strip tab_declaration) = [lit "VAR"; lit "x"; lit "5"] /\
  upper (lit "VAR") = lit "VAR" /\
  exists diags, parse_document tab_declaration = Ok ([], diags).
Proof.
  repeat split. eexists. vm_compute. reflexivity.
Qed.

(** C5 (amended). Every line whose trimmed form starts with [VAR], in any
    letter case, followed by a space character has a second word, and a
    symbol of that name is recorded; unless a later line declares the name
    again, the symbol stored is this line's, with the rest of the line as
    value text, or ["undefined"] when nothing follows the name.  Every
    symbol of the table comes from such a line. *)
Theorem declaration_lines_recorded txt :
  exists vars diags,
    parse_document txt = Ok (vars, diags) /\
    (forall ln raw,
       line_at (splitlines false txt) ln = Some raw ->
       is_declaration_line raw = true ->
       exists kw name rest,
         split 2 (strip raw) = kw :: name :: rest /\
         upper kw = lit "VAR" /\
         dict_in name vars = true /\
         ((forall ln' col' val',
             declares (splitlines false txt) ln' name col' val' -> ln' <= ln) ->
          dict_get vars name =
          Some (ln, find name (strip raw),
                match rest with v :: _ => v | [] => lit "undefined" end))) /\
    (forall name,
       dict_in name vars = true ->
       exists ln raw kw rest,
         line_at (splitlines false txt) ln = Some raw /\
         is_declaration_line raw = true /\
         split 2 (strip raw) = kw :: name :: rest).
Proof.
  set (lines := splitlines false txt).
  exists (symbols_of_lines lines), (diagnostics_of_lines lines).
  split; [apply parse_document_eq|]. split.
  - intros ln raw Hl Hd.
    destruct (declaration_line_parts raw Hd) as (kw & name & rest & E & Hkw).
    pose proof (declaration_of_parts raw kw name rest Hd E) as D.
    assert (Hdecl : declares lines ln name (find name (strip raw))
                      match rest with v :: _ => v | [] => lit "undefined" end).
    { exists raw. split; assumption. }
    exists kw, name, rest. split; [exact E|]. split; [exact Hkw|]. split.
    + eapply symbols_declared; eauto.
    + intros Hmax. apply symbols_last_declaration. split; assumption.
  - intros name Hin. unfold dict_in in Hin.
    destruct (dict_get (symbols_of_lines lines) name) as [[[ln col] val]|] eqn:G;
      [|discriminate].
    destruct (symbols_lookup _ _ _ _ _ G) as [(raw & Hl & D) _].
    destruct (declaration_inv _ _ _ _ D) as (Hd & kw & rest & E).
    exists ln, raw, kw, rest. repeat split; assumption.
Qed.

(** ** The stored column *)

(** [find] yields the first place where the name occurs in the line. *)
Lemma find_from_first sub : forall s i,
  0 <= i ->
  let r := find_from i sub s in
  r = -1 \/
  (i <= r /\ startswith sub (skipn (Z.to_nat (r - i)) s) = true /\
   forall k, (k < Z.to_nat (r - i))%nat -> startswith sub (skipn k s) = false).
Proof.
  induction s as [|c s IH]; intros i Hi; simpl.
  - destruct (startswith sub []) eqn:E; [|left; reflexivity].
    right. rewrite Z.sub_diag. simpl. repeat split; [lia | exact E | intros; lia].
  - destruct (startswith sub (c :: s)) eqn:E.
    + right. rewrite Z.sub_diag. simpl. repeat split; [lia | exact E | intros; lia].
    + destruct (IH (i + 1) ltac:(lia)) as [H | (H1 & H2 & H3)]; [left; exact H|].
      right. cbv zeta in *. set (r := find_from (i + 1) sub s) in *.
      replace (Z.to_nat (r - i)) with (S (Z.to_nat (r - (i + 1)))) by lia.
      repeat split; [lia | exact H2 |].
      intros [|k] Hk; [exact E | apply H3; lia].
Qed.

Lemma find_from_found sub : forall s i k,
  startswith sub (skipn k s) = true -> (k <= length s)%nat ->
  find_from i sub s <> -1 \/ i < 0.
Proof.
  induction s as [|c s IH]; intros i k H Hk; simpl.
  - destruct k; simpl in H; [|simpl in Hk; lia].
    rewrite H. destruct (Z.ltb_spec i 0); [right; assumption | left; lia].
  - destruct (startswith sub (c :: s)) eqn:E.
    + destruct (Z.ltb_spec i 0); [right; assumption | left; lia].
    + destruct k as [|k]; [simpl in H; congruence|].
      simpl in H, Hk. destruct (IH (i + 1) k H ltac:(lia)) as [F|F].
      * left. exact F.
      * right. lia.
Qed.

Lemma startswith_app w q : startswith w (w ++ q) = true.
Proof.
  induction w as [|c w IH]; simpl; [reflexivity|].
  rewrite Ascii.eqb_refl. exact IH.
Qed.

Lemma span_word_app s : forall w r, span_word s = (w, r) -> s = w ++ r.
Proof.
  induction s as [|c s IH]; intros w r; simpl.
  - intros [= <- <-]. reflexivity.
  - destruct (is_space c).
    + intros [= <- <-]. reflexivity.
    + destruct (span_word s) as [w0 r0]. intros [= <- <-].
      simpl. f_equal. apply IH. reflexivity.
Qed.

(** The second word [split] returns is a piece of the line. *)
Lemma split_second_word s kw name rest :
  split 2 s = kw :: name :: rest -> exists p q, s = p ++ name ++ q.
Proof.
  rewrite split_S. destruct (lstrip_decompose s) as (l1 & E1 & _).
  destruct (lstrip s) as [|c s1]; [discriminate|].
  destruct (span_word (c :: s1)) as [w1 r1] eqn:S1.
  rewrite split_S. destruct (lstrip_decompose r1) as (l2 & E2 & _).
  destruct (lstrip r1) as [|c2 s2]; [discriminate|].
  destruct (span_word (c2 :: s2)) as [w2 r2] eqn:S2.
  intros [= _ <- _].
  apply span_word_app in S1. apply span_word_app in S2.
  exists (l1 ++ w1 ++ l2), r2.
  rewrite E1, S1, E2, S2, <- !app_assoc. reflexivity.
Qed.

(** What does hold of the stored column: it is the first place of the
    trimmed line at which the name occurs. *)
Lemma declared_column_is_first_occurrence raw name col val :
  declaration raw = Some (name, col, val) ->
  0 <= col /\
  startswith name (skipn (Z.to_nat col) (strip raw)) = true /\
  forall k, (k < Z.to_nat col)%nat -> startswith name (skipn k (strip raw)) = false.
Proof.
  intros D. destruct (declaration_inv _ _ _ _ D) as (Hd & kw & rest & E).
  rewrite (declaration_of_parts _ _ _ _ Hd E) in D. injection D as <- _.
  destruct (split_second_word _ _ _ _ E) as (p & q & Ep).
  assert (Hocc : startswith name (skipn (length p) (strip raw)) = true).
  { rewrite Ep, skipn_app, Nat.sub_diag, skipn_all. simpl. apply startswith_app. }
  assert (Hle : (length p <= length (strip raw))%nat).
  { rewrite Ep, length_app. lia. }
  unfold find.
  destruct (find_from_found name (strip raw) 0 (length p) Hocc Hle) as [F|F]; [|lia].
  destruct (find_from_first name (strip raw) 0 ltac:(lia)) as [H | (H1 & H2 & H3)];
    [contradiction|].
  rewrite Z.sub_0_r in H2, H3. repeat split; assumption.
Qed.

(** C4 (the code departs from it). In ["VAR A = 1"] the declared name is the
    token at column 4, but the column stored is 1, where [find] meets the
    letter A of the keyword; column 1 is not the start of a token. *)
Theorem declaration_column_first_occurrence :
  parse_document keyword_letter_name = Ok ([(lit "A", (0, 1, lit "= 1"))], []) /\
  split 2 (strip keyword_letter_name) = [lit "VAR"; lit "A"; lit "= 1"] /\
  is_token (strip keyword_letter_name) 4 (lit "A") /\
  ~ is_token (strip keyword_letter_name) 1 (lit "A").
Proof.
  split; [vm_compute; reflexivity|]. split; [reflexivity|]. split.
  - exists (lit "VAR "), (lit " = 1"). repeat split; reflexivity.
  - intros (pre & post & E & L & _ & B & _).
    destruct pre as [|x [|y pre]]; try discriminate.
    vm_compute in E. injection E as <- _. vm_compute in B. discriminate.
Qed.

(** ** Columns of the diagnostics *)

Lemma finditer_from_start s : forall prev pos busy m,
  In m (finditer_from prev pos busy s) -> Z.of_nat pos <= m_start m.
Proof.
  induction s as [|c t IH]; intros prev pos busy m; simpl; [contradiction|].
  assert (Hstep : forall b, In m (finditer_from (Some c) (S pos) b t) ->
                  Z.of_nat pos <= m_start m).
  { intros b Hb. apply IH in Hb. lia. }
  destruct busy as [|b]; [|apply Hstep].
  destruct (match_at prev (c :: t)) as [n|]; [|apply Hstep].
  intros [<- | H]; [simpl; lia | eapply Hstep; eauto].
Qed.

Lemma finditer_from_NoDup s : forall prev pos busy,
  NoDup (finditer_from prev pos busy s).
Proof.
  induction s as [|c t IH]; intros prev pos busy; simpl; [constructor|].
  destruct busy as [|b]; [|apply IH].
  destruct (match_at prev (c :: t)) as [n|]; [|apply IH].
  constructor; [|apply IH].
  intros H. apply finditer_from_start in H. simpl in H. lia.
Qed.

Lemma finditer_NoDup l : NoDup (finditer l).
Proof. apply finditer_from_NoDup. Qed.

Lemma undefined_identifier_inj l n m1 m2 :
  In m1 (finditer l) -> In m2 (finditer l) ->
  undefined_identifier n m1 = undefined_identifier n m2 -> m1 = m2.
Proof.
  intros H1 H2 E.
  apply finditer_tokens in H1. apply finditer_tokens in H2.
  destruct H1 as (s1 & w1 & _ & ->). destruct H2 as (s2 & w2 & _ & ->).
  assert (Hw : w1 = w2).
  { apply (f_equal message) in E. symmetry in E.
    apply undefined_message_inj in E. simpl in E. congruence. }
  assert (Hs : s1 = s2).
  { apply (f_equal (fun d => character (range_start (diag_range d)))) in E.
    simpl in E. lia. }
  subst. reflexivity.
Qed.

Lemma line_diagnostics_NoDup valid item : NoDup (line_diagnostics valid item).
Proof.
  unfold line_diagnostics. destruct (skipped (snd item)); [constructor|].
  apply NoDup_map_NoDup_ForallPairs.
  - intros m1 m2 H1 H2 E. apply filter_In in H1. apply filter_In in H2.
    eapply undefined_identifier_inj; [apply H1 | apply H2 | exact E].
  - apply NoDup_filter, finditer_NoDup.
Qed.

Lemma line_diagnostics_line valid n raw d :
  In d (line_diagnostics valid (n, raw)) -> line (range_start (diag_range d)) = n.
Proof.
  unfold line_diagnostics. cbn [fst snd]. destruct (skipped raw); [contradiction|].
  intros H. apply in_map_iff in H. destruct H as (mt & <- & _). reflexivity.
Qed.

Lemma flat_map_diagnostics_NoDup valid lines :
  NoDup (flat_map (line_diagnostics valid) (enumerate lines)).
Proof.
  induction lines as [|x lines IH] using rev_ind; [constructor|].
  rewrite enumerate_snoc, flat_map_app. simpl. rewrite app_nil_r.
  apply NoDup_app; [exact IH | apply line_diagnostics_NoDup |].
  intros d Hd Hx. apply line_diagnostics_line in Hx.
  apply in_flat_map in Hd. destruct Hd as ([n raw] & Hin & Hd).
  apply line_diagnostics_line in Hd. apply in_enumerate, line_at_bound in Hin. lia.
Qed.

(** X5. What does hold of the diagnostics: there is one, and only one, for each
    token of a trimmed line that is neither skipped nor accepted, and no
    other; its columns are those of the token in the trimmed line. *)
Lemma diagnostics_of_trimmed_lines txt :
  exists vars diags,
    parse_document txt = Ok (vars, diags) /\
    NoDup diags /\
    forall d,
      In d diags <->
      exists ln raw start w,
        line_at (splitlines false txt) ln = Some raw /\ skipped raw = false /\
        is_token (strip raw) start w /\
        accepted (keys vars ++ keys BUILTIN_FUNCTIONS) w = false /\
        d = {| diag_range := token_range ln start w;
               message := lit "Undefined identifier: '" ++ w ++ lit "'";
               severity := Error;
               source := lit "MyOPL" |}.
Proof.
  exists (symbols_of_lines (splitlines false txt)),
         (diagnostics_of_lines (splitlines false txt)).
  split; [apply parse_document_eq|].
  split; [apply flat_map_diagnostics_NoDup|].
  intros d. apply in_diagnostics.
Qed.

Lemma is_space_not_word c : is_space c = true -> is_word c = false.
Proof. each_char c; try reflexivity; discriminate. Qed.

Lemma forallb_rev {A} (f : A -> bool) l : forallb f (rev l) = forallb f l.
Proof.
  induction l as [|x l IH]; simpl; [reflexivity|].
  rewrite forallb_app, IH. simpl. rewrite andb_true_r. apply andb_comm.
Qed.

Lemma strip_decompose raw :
  exists lead trail,
    raw = lead ++ strip raw ++ trail /\ length lead = indent raw /\
    forallb is_space lead = true /\ forallb is_space trail = true.
Proof.
  destruct (lstrip_decompose raw) as (lead & E1 & H1).
  destruct (lstrip_decompose (rev (lstrip raw))) as (t & E2 & H2).
  exists lead, (rev t). unfold strip, rstrip.
  assert (E3 : lstrip raw = rev (lstrip (rev (lstrip raw))) ++ rev t).
  { rewrite <- rev_app_distr, <- E2, rev_involutive. reflexivity. }
  split; [rewrite <- E3; exact E1|]. split.
  - pose proof (f_equal (@length ascii) E1) as E4. rewrite length_app in E4.
    unfold indent. lia.
  - rewrite forallb_rev. split; assumption.
Qed.

Lemma last_char_spaces lead pre :
  forallb is_space lead = true ->
  opt_word (last_char pre) = false -> opt_word (last_char (lead ++ pre)) = false.
Proof.
  intros Hl Hp. destruct pre as [|x pre].
  - rewrite app_nil_r. unfold last_char.
    destruct (rev lead) as [|c r] eqn:E; [reflexivity|]. simpl.
    apply is_space_not_word. rewrite forallb_forall in Hl. apply Hl.
    apply in_rev. rewrite E. left. reflexivity.
  - unfold last_char in *. rewrite rev_app_distr.
    destruct (rev (x :: pre)) as [|c r] eqn:E; [|exact Hp].
    apply (f_equal (@length ascii)) in E. rewrite length_rev in E. discriminate.
Qed.

Lemma hd_spaces post trail :
  forallb is_space trail = true ->
  opt_word (hd_error post) = false -> opt_word (hd_error (post ++ trail)) = false.
Proof.
  intros Ht Hp. destruct post as [|x post]; [|exact Hp].
  destruct trail as [|c trail]; [reflexivity|]. simpl in *.
  apply andb_prop in Ht. apply is_space_not_word. apply Ht.
Qed.

(** A token of the trimmed line is the token of the line that lies
    [indent] columns further right. *)
Lemma trimmed_token_in_line raw start w :
  is_token (strip raw) start w -> is_token raw (indent raw + start) w.
Proof.
  intros (pre & post & E & L & I & B & A).
  destruct (strip_decompose raw) as (lead & trail & Er & Ll & Hl & Ht).
  exists (lead ++ pre), (post ++ trail). split.
  - rewrite Er at 1. rewrite E, <- !app_assoc. reflexivity.
  - split; [rewrite length_app; lia|]. split; [exact I|]. split.
    + apply last_char_spaces; assumption.
    + apply hd_spaces; assumption.
Qed.

(** Every diagnostic reports a token of its line, [indent] columns to the
    left of where the token stands in the line. *)
Lemma diagnostics_shifted_by_indent txt d :
  In d (diagnostics_of_lines (splitlines false txt)) ->
  exists ln raw start w,
    line_at (splitlines false txt) ln = Some raw /\
    is_token raw (indent raw + start) w /\
    diag_range d = token_range ln start w.
Proof.
  intros H. apply in_diagnostics in H.
  destruct H as (ln & raw & start & w & Hl & _ & T & _ & ->).
  exists ln, raw, start, w. split; [exact Hl|]. split; [|reflexivity].
  apply trimmed_token_in_line. exact T.
Qed.

(** C1 (the code departs from it). In the document ["  foo"] the token [foo]
    occupies columns 2 to 5 of its line, but the diagnostic spans columns 0
    to 3: columns are measured on the trimmed line. *)
Theorem indented_token_diagnostic_columns :
  is_token indented 2 (lit "foo") /\
  parse_document indented =
  Ok ([], [{| diag_range :=
                {| range_start := {| line := 0; character := 0 |};
                   range_end := {| line := 0; character := 3 |} |};
              message := lit "Undefined identifier: 'foo'";
              severity := Error;
              source := lit "MyOPL" |}]).
Proof.
  split.
  - exists (lit "  "), []. repeat split; reflexivity.
  - vm_compute. reflexivity.
Qed.

(** ** Loops with early return *)

Lemma for_return_none {A B} (body : A -> result (option B)) xs :
  (forall x, In x xs -> body x = Ok None) -> for_return body xs = Ok None.
Proof.
  induction xs as [|a xs IH]; intros H; simpl; [reflexivity|].
  rewrite (H a (or_introl eq_refl)). simpl. apply IH.
  intros x Hx. apply H. right. exact Hx.
Qed.

Lemma for_return_unique {A B} (body : A -> result (option B)) xs x :
  (forall y, In y xs -> y = x \/ body y = Ok None) ->
  In x xs -> for_return body xs = body x.
Proof.
  induction xs as [|a xs IH]; intros H Hin; [contradiction|].
  assert (Hrest : body x = Ok None -> for_return body xs = Ok None).
  { intros Hx. apply for_return_none. intros y Hy.
    destruct (H y (or_intror Hy)) as [-> | Hn]; assumption. }
  simpl. destruct (H a (or_introl eq_refl)) as [-> | Ha].
  - destruct (body x) as [[v|]|e] eqn:E; simpl; auto.
  - rewrite Ha. simpl. destruct Hin as [-> | Hin].
    + rewrite Ha. apply Hrest. exact Ha.
    + apply IH; [|exact Hin]. intros y Hy. apply H. right. exact Hy.
Qed.

Lemma under_cursor_match_of pos start w :
  under_cursor (match_of start w) pos = true <-> cursor_on pos start w.
Proof.
  unfold under_cursor, cursor_on, match_of, len. simpl.
  rewrite andb_true_iff, !Z.leb_le. lia.
Qed.

(** On the cursor line, the loop of a resolver comes down to its body at
    the one token under the cursor. *)
Lemma scan_at_token {B} (body : Match -> result (option B)) ln pos start w :
  (forall mt, under_cursor mt pos = false -> body mt = Ok None) ->
  is_token ln start w -> cursor_on pos start w ->
  for_return body (finditer ln) = body (match_of start w).
Proof.
  intros Hbody T C.
  assert (Hin : In (match_of start w) (finditer ln)).
  { apply finditer_tokens. eauto. }
  apply for_return_unique; [|exact Hin].
  intros y Hy. destruct (under_cursor y pos) eqn:U.
  - left. eapply finditer_cursor_unique; eauto.
    apply under_cursor_match_of. exact C.
  - right. apply Hbody. exact U.
Qed.

Lemma dict_in_get {V} (d : dict V) k v : dict_get d k = Some v -> dict_in k d = true.
Proof. unfold dict_in. intros ->. reflexivity. Qed.

(** ** The query resolvers *)

Section CursorOnToken.

(** A stored document, and a cursor on a token of the cursor line. *)
Variables (ls : LanguageServer) (ds : DocumentStates) (uri : str).
Variables (pos : Position) (st : DocState) (ln : str) (start : nat) (w : str).

Hypothesis stored : dict_get ds uri = Some st.
Hypothesis cursor_line :
  getitem (doc_lines (get_document ls uri)) (line pos) = Ok ln.
Hypothesis token : is_token ln start w.
Hypothesis on_token : cursor_on pos start w.

Lemma definition_at_token :
  definition ls ds uri pos = definition_match ds uri pos (match_of start w).
Proof.
  unfold definition. rewrite (dict_in_get _ _ _ stored), cursor_line. simpl.
  apply scan_at_token with (pos := pos); auto.
  intros mt U. unfold definition_match. rewrite U. reflexivity.
Qed.

Lemma hover_at_token :
  hover ls ds uri pos = hover_match ds uri pos (match_of start w).
Proof.
  unfold hover. rewrite (dict_in_get _ _ _ stored), cursor_line. simpl.
  apply scan_at_token with (pos := pos); auto.
  intros mt U. unfold hover_match. rewrite U. reflexivity.
Qed.

Lemma hover_match_cases :
  hover_match ds uri pos (match_of start w) =
  Ok match dict_get (variables st) w with
     | Some (_, _, val) => Some (variable_hover w val pos (match_of start w))
     | None =>
         match dict_get BUILTIN_FUNCTIONS w with
         | Some descr => Some (builtin_hover w descr)
         | None =>
             if list_in (upper w) KEYWORDS then Some (keyword_hover w) else None
         end
     end.
Proof.
  unfold hover_match.
  rewrite (proj2 (under_cursor_match_of pos start w) on_token).
  cbn [m_group1 match_of].
  unfold dict_getitem, dict_in. rewrite stored. cbn [bind].
  destruct (dict_get (variables st) w) as [[[a b] val]|]; cbn [bind]; [reflexivity|].
  destruct (dict_get BUILTIN_FUNCTIONS w) as [descr|]; cbn [bind]; [reflexivity|].
  destruct (list_in (upper w) KEYWORDS); reflexivity.
Qed.

(** C7. For a stored document, when the cursor lies on a token of the
    cursor line, [definition] answers from the snapshot's symbol table: if
    the token is a declared name, the location is the stored declaration
    line with columns from the stored column to that column plus the length
    of the name; if it is not declared, the answer is [None]. *)
Theorem definition_resolves_declaration :
  definition ls ds uri pos =
  Ok match dict_get (variables st) w with
     | Some (line_num, col, _) =>
         Some {| loc_uri := uri;
                 loc_range :=
                   {| range_start := {| line := line_num; character := col |};
                      range_end := {| line := line_num;
                                      character := col + len w |} |} |}
     | None => None
     end.
Proof.
  rewrite definition_at_token. unfold definition_match.
  rewrite (proj2 (under_cursor_match_of pos start w) on_token).
  cbn [m_group1 match_of].
  unfold dict_getitem, dict_in. rewrite stored. cbn [bind].
  destruct (dict_get (variables st) w) as [[[a b] val]|]; reflexivity.
Qed.

(** C8. For a stored document and a cursor on a token, [hover] checks the
    categories in the order declared symbol, builtin function, keyword
    (upper-cased), and answers with the first that applies: the symbol's
    name and stored value text, the builtin's registered description, or the
    upper-cased keyword.  A token in none of them gives [None]. *)
Theorem hover_priority :
  hover ls ds uri pos =
  Ok match dict_get (variables st) w with
     | Some (_, _, val) =>
         Some {| contents :=
                   {| kind := Markdown;
                      value := lit "**Variable**: `" ++ w ++ lit "`" ++ [LF; LF]
                               ++ lit "**Value**: `" ++ val ++ lit "`" |};
                 hover_range := Some (token_range (line pos) start w) |}
     | None =>
         match dict_get BUILTIN_FUNCTIONS w with
         | Some descr =>
             Some {| contents :=
                       {| kind := Markdown;
                          value := lit "**Built-in function**: `" ++ w ++ lit "`"
                                   ++ [LF; LF] ++ descr |};
                     hover_range := None |}
         | None =>
             if list_in (upper w) KEYWORDS
             then Some {| contents :=
                            {| kind := Markdown;
                               value := lit "**Keyword**: `" ++ upper w ++ lit "`" |};
                          hover_range := None |}
             else None
         end
     end.
Proof.
  rewrite hover_at_token, hover_match_cases.
  destruct (dict_get (variables st) w) as [[[a b] val]|]; [|reflexivity].
  unfold variable_hover, token_range, match_of, len. cbn [m_start m_end].
  rewrite Nat2Z.inj_add. reflexivity.
Qed.

(** C10. For a stored document and a cursor on a token: the hover carries a
    range if and only if the token is a declared symbol, and the range then
    spans the token's columns on the cursor line; for a token that is not a
    declared symbol, a builtin gets a hover with its description and no
    range, a keyword (in any letter case) gets a hover with its upper-cased
    form and no range, and no hover returned carries a range. *)
Theorem hover_range_iff_symbol :
  (dict_in w (variables st) = true ->
   exists h, hover ls ds uri pos = Ok (Some h) /\
             hover_range h = Some (token_range (line pos) start w)) /\
  (dict_in w (variables st) = false ->
   forall h, hover ls ds uri pos = Ok (Some h) -> hover_range h = None) /\
  (dict_in w (variables st) = false ->
   dict_in w BUILTIN_FUNCTIONS = true ->
   exists descr,
     dict_get BUILTIN_FUNCTIONS w = Some descr /\
     hover ls ds uri pos =
     Ok (Some {| contents :=
                   {| kind := Markdown;
                      value := lit "**Built-in function**: `" ++ w ++ lit "`"
                               ++ [LF; LF] ++ descr |};
                 hover_range := None |})) /\
  (dict_in w (variables st) = false ->
   dict_in w BUILTIN_FUNCTIONS = false ->
   list_in (upper w) KEYWORDS = true ->
   hover ls ds uri pos =
   Ok (Some {| contents :=
                 {| kind := Markdown;
                    value := lit "**Keyword**: `" ++ upper w ++ lit "`" |};
               hover_range := None |})) /\
  ((exists h r, hover ls ds uri pos = Ok (Some h) /\ hover_range h = Some r) <->
   dict_in w (variables st) = true).
Proof.
  rewrite hover_at_token, hover_match_cases. unfold dict_in.
  destruct (dict_get (variables st) w) as [[[a b] val]|].
  - split; [|split; [discriminate|split; [discriminate|split; [discriminate|]]]].
    + intros _. eexists. split; [reflexivity|].
      unfold variable_hover, token_range, match_of, len.
      cbn [m_start m_end hover_range]. rewrite Nat2Z.inj_add. reflexivity.
    + split; [reflexivity|]. intros _. do 2 eexists. split; reflexivity.
  - split; [discriminate|].
    destruct (dict_get BUILTIN_FUNCTIONS w) as [descr|].
    + split; [intros _ h [= <-]; reflexivity|].
      split; [intros _ _; exists descr; split; reflexivity|].
      split; [discriminate|].
      split; [|discriminate]. intros (h & r & [= <-] & Hr). discriminate.
    + split.
      { intros _ h. destruct (list_in (upper w) KEYWORDS); [|discriminate].
        intros [= <-]. reflexivity. }
      split; [discriminate|]. split.
      { intros _ _ Hk. rewrite Hk. reflexivity. }
      split; [|discriminate]. intros (h & r & Hh & Hr).
      destruct (list_in (upper w) KEYWORDS); [|discriminate].
      injection Hh as <-. discriminate.
Qed.

End CursorOnToken.

Lemma definition_resolves_declaration_witness :
  dict_get (opened scenario) demo_uri = Some scenario_snapshot /\
  getitem (doc_lines (get_document (serving scenario) demo_uri)) (line on_age)
  = Ok print_line /\
  is_token print_line 6 (lit "age") /\
  cursor_on on_age 6 (lit "age") /\
  definition (serving scenario) (opened scenario) demo_uri on_age =
  Ok (Some {| loc_uri := demo_uri;
              loc_range :=
                {| range_start := {| line := 0; character := 4 |};
                   range_end := {| line := 0; character := 7 |} |} |}).
Proof.
  assert (H1 : dict_get (opened scenario) demo_uri = Some scenario_snapshot)
    by reflexivity.
  assert (H2 : getitem (doc_lines (get_document (serving scenario) demo_uri))
                 (line on_age) = Ok print_line) by reflexivity.
  assert (H3 : is_token print_line 6 (lit "age")).
  { exists (lit "print("), (lit ")" ++ [LF]). repeat split; reflexivity. }
  assert (H4 : cursor_on on_age 6 (lit "age")).
  { unfold cursor_on, len, on_age. cbn. lia. }
  refine (conj H1 (conj H2 (conj H3 (conj H4 _)))).
  exact (definition_resolves_declaration _ _ _ _ _ _ _ _ H1 H2 H3 H4).
Defined.

Lemma hover_priority_witness :
  dict_get (opened shadowing) demo_uri = Some shadowing_snapshot /\
  getitem (doc_lines (get_document (serving shadowing) demo_uri)) (line on_print)
  = Ok (lit "print(1)") /\
  is_token (lit "print(1)") 0 (lit "print") /\
  cursor_on on_print 0 (lit "print") /\
  hover (serving shadowing) (opened shadowing) demo_uri on_print =
  Ok (Some {| contents :=
                {| kind := Markdown;
                   value := lit "**Variable**: `print`" ++ [LF; LF]
                            ++ lit "**Value**: `= 3`" |};
              hover_range := Some (token_range 1 0 (lit "print")) |}).
Proof.
  assert (H1 : dict_get (opened shadowing) demo_uri = Some shadowing_snapshot)
    by reflexivity.
  assert (H2 : getitem (doc_lines (get_document (serving shadowing) demo_uri))
                 (line on_print) = Ok (lit "print(1)")) by reflexivity.
  assert (H3 : is_token (lit "print(1)") 0 (lit "print")).
  { exists [], (lit "(1)"). repeat split; reflexivity. }
  assert (H4 : cursor_on on_print 0 (lit "print")).
  { unfold cursor_on, len, on_print. cbn. lia. }
  refine (conj H1 (conj H2 (conj H3 (conj H4 _)))).
  exact (hover_priority _ _ _ _ _ _ _ _ H1 H2 H3 H4).
Defined.

Lemma hover_range_iff_symbol_witness :
  (dict_get (opened scenario) demo_uri = Some scenario_snapshot /\
   getitem (doc_lines (get_document (serving scenario) demo_uri)) (line on_age)
   = Ok print_line /\
   is_token print_line 6 (lit "age") /\
   cursor_on on_age 6 (lit "age") /\
   exists h, hover (serving scenario) (opened scenario) demo_uri on_age = Ok (Some h) /\
             hover_range h = Some (token_range 1 6 (lit "age"))) /\
  (getitem (doc_lines (get_document (serving scenario) demo_uri)) (line on_print_call)
   = Ok print_line /\
   is_token print_line 0 (lit "print") /\
   cursor_on on_print_call 0 (lit "print") /\
   exists descr,
     dict_get BUILTIN_FUNCTIONS (lit "print") = Some descr /\
     hover (serving scenario) (opened scenario) demo_uri on_print_call =
     Ok (Some {| contents :=
                   {| kind := Markdown;
                      value := lit "**Built-in function**: `" ++ lit "print" ++ lit "`"
                               ++ [LF; LF] ++ descr |};
                 hover_range := None |})) /\
  (getitem (doc_lines (get_document (serving scenario) demo_uri)) (line on_var)
   = Ok var_line /\
   is_token var_line 0 (lit "VAR") /\
   cursor_on on_var 0 (lit "VAR") /\
   hover (serving scenario) (opened scenario) demo_uri on_var =
   Ok (Some {| contents :=
                 {| kind := Markdown;
                    value := lit "**Keyword**: `" ++ upper (lit "VAR") ++ lit "`" |};
               hover_range := None |})).
Proof.
  assert (H1 : dict_get (opened scenario) demo_uri = Some scenario_snapshot)
    by reflexivity.
  assert (H2 : getitem (doc_lines (get_document (serving scenario) demo_uri))
                 (line on_age) = Ok print_line) by reflexivity.
  assert (H3 : is_token print_line 6 (lit "age")).
  { exists (lit "print("), (lit ")" ++ [LF]). repeat split; reflexivity. }
  assert (H4 : cursor_on on_age 6 (lit "age")).
  { unfold cursor_on, len, on_age. cbn. lia. }
  assert (P2 : getitem (doc_lines (get_document (serving scenario) demo_uri))
                 (line on_print_call) = Ok print_line) by reflexivity.
  assert (P3 : is_token print_line 0 (lit "print")).
  { exists [], (lit "(age)" ++ [LF]). repeat split; reflexivity. }
  assert (P4 : cursor_on on_print_call 0 (lit "print")).
  { unfold cursor_on, len, on_print_call. cbn. lia. }
  assert (K2 : getitem (doc_lines (get_document (serving scenario) demo_uri))
                 (line on_var) = Ok var_line) by reflexivity.
  assert (K3 : is_token var_line 0 (lit "VAR")).
  { exists [], (lit " age = 10" ++ [LF]). repeat split; reflexivity. }
  assert (K4 : cursor_on on_var 0 (lit "VAR")).
  { unfold cursor_on, len, on_var. cbn. lia. }
  refine (conj (conj H1 (conj H2 (conj H3 (conj H4 _))))
            (conj (conj P2 (conj P3 (conj P4 _))) (conj K2 (conj K3 (conj K4 _))))).
  - exact (proj1 (hover_range_iff_symbol _ _ _ _ _ _ _ _ H1 H2 H3 H4) eq_refl).
  - exact (proj1 (proj2 (proj2 (hover_range_iff_symbol _ _ _ _ _ _ _ _ H1 P2 P3 P4)))
             eq_refl eq_refl).
  - exact (proj1 (proj2 (proj2 (proj2
             (hover_range_iff_symbol _ _ _ _ _ _ _ _ H1 K2 K3 K4))))
             eq_refl eq_refl eq_refl).
Defined.

(** C3 (as stated, fails). With no snapshot for the document, [completions]
    does not answer with an empty value: it offers the 17 keywords and the
    14 builtins. *)
Lemma completions_unknown_document_not_empty :
  dict_in demo_uri ([] : DocumentStates) = false /\
  completions [] demo_uri <> Ok [] /\
  exists items, completions [] demo_uri = Ok items /\ length items = 31%nat.
Proof.
  split; [reflexivity|]. split.
  - vm_compute. discriminate.
  - eexists. split; [vm_compute; reflexivity | reflexivity].
Qed.

(** C3 (amended). With no snapshot for the document, no resolver raises:
    [definition] and [hover] answer [None]; [completions] answers with the
    keyword and builtin candidates only, no variable among them. *)
Theorem unknown_document_queries ls ds uri pos :
  dict_in uri ds = false ->
  definition ls ds uri pos = Ok None /\
  hover ls ds uri pos = Ok None /\
  exists items,
    completions ds uri = Ok items /\
    map label items = KEYWORDS ++ keys BUILTIN_FUNCTIONS /\
    Forall (fun it => item_kind it <> Variable_) items.
Proof.
  intros H. unfold definition, hover, completions. rewrite H. cbn [negb bind app].
  split; [reflexivity|]. split; [reflexivity|].
  eexists. split; [vm_compute; reflexivity|]. split; [vm_compute; reflexivity|].
  repeat (apply Forall_cons; [discriminate|]). apply Forall_nil.
Qed.

Lemma unknown_document_queries_witness :
  dict_in demo_uri ([] : DocumentStates) = false /\
  definition (serving scenario) [] demo_uri on_age = Ok None /\
  hover (serving scenario) [] demo_uri on_age = Ok None /\
  exists items,
    completions [] demo_uri = Ok items /\
    map label items = KEYWORDS ++ keys BUILTIN_FUNCTIONS /\
    Forall (fun it => item_kind it <> Variable_) items.
Proof.
  split; [reflexivity|].
  exact (unknown_document_queries (serving scenario) [] demo_uri on_age eq_refl).
Defined.

(** C6 (the code departs from it). The document [one_line], a line and its
    newline, is a single line for [splitlines]; with the cursor on the line
    after it, both resolvers raise [IndexError] at [doc.lines[pos.line]]. *)
Theorem cursor_past_last_line_raises :
  dict_in demo_uri (opened one_line) = true /\
  doc_lines (get_document (serving one_line) demo_uri) = [one_line] /\
  definition (serving one_line) (opened one_line) demo_uri below_last_line
  = Raise IndexError /\
  hover (serving one_line) (opened one_line) demo_uri below_last_line
  = Raise IndexError.
Proof. repeat split. Qed.

(** ** Where the resolvers cannot raise *)

Lemma for_return_ok {A B} (body : A -> result (option B)) xs :
  (forall x, exists r, body x = Ok r) -> exists r, for_return body xs = Ok r.
Proof.
  intros H. induction xs as [|x xs IH]; simpl; [eauto|].
  destruct (H x) as [[v|] ->]; simpl; eauto.
Qed.

Lemma dict_getitem_in {V} (d : dict V) k :
  dict_in k d = true -> exists v, dict_getitem d k = Ok v.
Proof.
  unfold dict_in, dict_getitem. destruct (dict_get d k); [eauto | discriminate].
Qed.

(** X17. With the cursor on a line of the document, neither resolver raises. *)
Lemma resolvers_ok_on_document_lines ls ds uri pos ln :
  getitem (doc_lines (get_document ls uri)) (line pos) = Ok ln ->
  (exists r, definition ls ds uri pos = Ok r) /\
  (exists r, hover ls ds uri pos = Ok r).
Proof.
  intros Hln. unfold definition, hover.
  destruct (dict_in uri ds) eqn:Hin; cbn [negb]; [|eauto].
  rewrite Hln. cbn [bind].
  destruct (dict_getitem_in ds uri Hin) as [st Hst].
  split; apply for_return_ok; intros mt.
  - unfold definition_match. destruct (under_cursor mt pos); [|eauto].
    rewrite Hst. cbn [bind].
    destruct (dict_in (m_group1 mt) (variables st)) eqn:Hv; [|eauto].
    destruct (dict_getitem_in _ _ Hv) as [[[a b] c] ->]. cbn [bind]. eauto.
  - unfold hover_match. destruct (under_cursor mt pos); [|eauto].
    rewrite Hst. cbn [bind].
    destruct (dict_in (m_group1 mt) (variables st)) eqn:Hv.
    + destruct (dict_getitem_in _ _ Hv) as [[[a b] c] ->]. cbn [bind]. eauto.
    + destruct (dict_in (m_group1 mt) BUILTIN_FUNCTIONS) eqn:Hb.
      * destruct (dict_getitem_in _ _ Hb) as [descr ->]. cbn [bind]. eauto.
      * destruct (list_in (upper (m_group1 mt)) KEYWORDS); eauto.
Qed.

(** * Further properties *)

(** ** The shape of a declaration line *)

Lemma span_word_spec s : forall w r,
  span_word s = (w, r) ->
  s = w ++ r /\ forallb nonspace w = true /\ at_word_end r.
Proof.
  induction s as [|c s IH]; intros w r; simpl.
  - intros [= <- <-]. repeat split. left. reflexivity.
  - destruct (is_space c) eqn:Hc.
    + intros [= <- <-]. repeat split. right. eauto.
    + destruct (span_word s) as [w0 r0]. intros [= <- <-].
      destruct (IH w0 r0 eq_refl) as (E & Hw & Hr).
      simpl. unfold nonspace at 1. rewrite Hc, Hw, <- E. repeat split. exact Hr.
Qed.

Lemma declaration_line_grammar raw :
  is_declaration_line raw = true ->
  exists kw sep name r,
    strip raw = kw ++ sep ++ name ++ r /\ upper kw = lit "VAR" /\
    sep <> [] /\ forallb is_space sep = true /\
    name <> [] /\ forallb nonspace name = true /\ at_word_end r /\
    split 2 (strip raw) = kw :: name :: split 0 r.
Proof.
  unfold is_declaration_line. intros H.
  destruct (declaration_line_shape _ H)
    as (a & b & c & d & t & E & Ha & Hb & Hc & Hd & Hkw).
  assert (Hne : strip raw <> []) by (rewrite E; discriminate).
  destruct (strip_last raw Hne) as (e & He & Hs). rewrite E in *.
  assert (Ht : lstrip t <> []).
  { destruct t as [|x t'].
    - unfold last_char in He. simpl in He. injection He as <-. congruence.
    - destruct (last_char_app_cons [a; b; c; d] x t') as (e' & He' & Hin).
      simpl in He'. rewrite He in He'. injection He' as <-.
      eapply lstrip_nonspace; eauto. }
  destruct (lstrip_decompose (d :: t)) as (lead & El & Hl).
  cbn [lstrip] in El. rewrite Hd in El.
  rewrite split_S. cbn [lstrip]. rewrite Ha.
  cbn [span_word]. rewrite Ha, Hb, Hc, Hd.
  rewrite split_S. cbn [lstrip]. rewrite Hd.
  destruct (lstrip t) as [|x s1] eqn:Et; [congruence|].
  pose proof (lstrip_head _ _ _ Et) as Hx.
  destruct (span_word (x :: s1)) as [w r] eqn:Sw.
  destruct (span_word_spec _ _ _ Sw) as (Ew & Hw & Hr).
  exists [a; b; c], lead, w, r.
  split.
  { change ([a; b; c] ++ lead ++ w ++ r) with (a :: b :: c :: lead ++ w ++ r).
    rewrite <- Ew, <- El. reflexivity. }
  split; [exact Hkw|]. split.
  { intros ->. simpl in El. injection El as -> _. congruence. }
  split; [exact Hl|]. split.
  { intros ->. simpl in Sw. rewrite Hx in Sw.
    destruct (span_word s1). discriminate. }
  repeat split; assumption.
Qed.

Lemma startswith_length p : forall s,
  startswith p s = true -> (length p <= length s)%nat /\ firstn (length p) s = p.
Proof.
  induction p as [|a p IH]; intros s; simpl.
  - intros _. split; [lia | reflexivity].
  - destruct s as [|b s]; [discriminate|].
    rewrite andb_true_iff, Ascii.eqb_eq. intros [-> H].
    destruct (IH s H) as [L F]. simpl. rewrite F. split; [lia | reflexivity].
Qed.

Lemma declaration_name_nonempty raw name col val :
  declaration raw = Some (name, col, val) -> name <> [].
Proof.
  intros D. destruct (declaration_inv _ _ _ _ D) as (Hd & _).
  destruct (declaration_line_grammar raw Hd)
    as (kw & sep & nm & r & _ & _ & _ & _ & Hnm & _ & _ & Hsplit).
  rewrite (declaration_of_parts _ _ _ _ Hd Hsplit) in D.
  injection D as <- _ _. exact Hnm.
Qed.

(** X1. A declaration line reads: the keyword, whitespace, the name, then the
    end of the line or whitespace and the value text.  The name is a
    whitespace-free word; the value is what follows it without its leading
    whitespace, or ["undefined"] when nothing does; the stored column is
    never negative and never to the right of the name. *)
Theorem declaration_grammar raw name col val :
  declaration raw = Some (name, col, val) ->
  exists kw sep r,
    strip raw = kw ++ sep ++ name ++ r /\ upper kw = lit "VAR" /\
    sep <> [] /\ forallb is_space sep = true /\
    name <> [] /\ forallb nonspace name = true /\ at_word_end r /\
    val = match lstrip r with [] => lit "undefined" | c :: v => c :: v end /\
    0 <= col <= len kw + len sep.
Proof.
  intros D. destruct (declaration_inv _ _ _ _ D) as (Hd & _).
  destruct (declaration_line_grammar raw Hd)
    as (kw & sep & nm & r & E & Hkw & Hsep & Hsp & Hnm & Hns & Hr & Hsplit).
  pose proof (declaration_of_parts _ _ _ _ Hd Hsplit) as D'.
  rewrite D in D'. injection D' as -> Hcol Hval.
  destruct (declared_column_is_first_occurrence _ _ _ _ D) as (H0 & _ & Hfirst).
  exists kw, sep, r. repeat split; try assumption.
  - rewrite Hval. destruct (lstrip r); reflexivity.
  - assert (Hocc : startswith nm (skipn (length (kw ++ sep)) (strip raw)) = true).
    { rewrite E, (app_assoc kw sep), skipn_app, Nat.sub_diag, skipn_all.
      simpl. apply startswith_app. }
    destruct (Nat.lt_ge_cases (length (kw ++ sep)) (Z.to_nat col)) as [L|L].
    + rewrite (Hfirst _ L) in Hocc. discriminate.
    + rewrite length_app in L. unfold len. lia.
Qed.

Lemma declaration_grammar_witness :
  declaration (lit "var  age =  10 ") = Some (lit "age", 5, lit "=  10") /\
  exists kw sep r,
    strip (lit "var  age =  10 ") = kw ++ sep ++ lit "age" ++ r /\
    upper kw = lit "VAR" /\
    sep <> [] /\ forallb is_space sep = true /\
    lit "age" <> [] /\ forallb nonspace (lit "age") = true /\ at_word_end r /\
    lit "=  10" = match lstrip r with [] => lit "undefined" | c :: v => c :: v end /\
    0 <= 5 <= len kw + len sep.
Proof.
  assert (H : declaration (lit "var  age =  10 ") = Some (lit "age", 5, lit "=  10"))
    by reflexivity.
  exact (conj H (declaration_grammar _ _ _ _ H)).
Defined.

Lemma symbols_spell_name lines name ln col val :
  dict_get (symbols_of_lines lines) name = Some (ln, col, val) ->
  exists raw,
    line_at lines ln = Some raw /\
    0 <= col /\ col + len name <= len (strip raw) /\
    slice (strip raw) col (col + len name) = name.
Proof.
  intros G.
  destruct (symbols_lookup _ _ _ _ _ G) as [(raw & Hl & D) _].
  destruct (declared_column_is_first_occurrence _ _ _ _ D) as (H0 & Hocc & _).
  pose proof (declaration_name_nonempty _ _ _ _ D) as Hne.
  destruct (startswith_length _ _ Hocc) as [L F].
  rewrite length_skipn in L.
  assert (Hn : (0 < length name)%nat) by (destruct name; [congruence | simpl; lia]).
  exists raw. split; [exact Hl|]. split; [exact H0|]. split.
  - unfold len. lia.
  - unfold slice, len.
    replace (Z.to_nat (col + Z.of_nat (length name) - col)) with (length name) by lia.
    exact F.
Qed.

(** X2. Every stored symbol points into its declaration line: the line exists,
    and the stored column with the length of the name delimits, in the
    trimmed line, a piece of text that spells the name. *)
Theorem symbol_positions_spell_name txt :
  exists vars diags,
    parse_document txt = Ok (vars, diags) /\
    forall name ln col val,
      dict_get vars name = Some (ln, col, val) ->
      exists raw,
        line_at (splitlines false txt) ln = Some raw /\
        0 <= col /\ col + len name <= len (strip raw) /\
        slice (strip raw) col (col + len name) = name.
Proof.
  exists (symbols_of_lines (splitlines false txt)),
         (diagnostics_of_lines (splitlines false txt)).
  split; [apply parse_document_eq|]. intros name ln col val.
  apply symbols_spell_name.
Qed.

(** ** Lines the validation pass skips *)

Lemma declaration_line_not_skipped raw :
  is_declaration_line raw = true -> skipped raw = false.
Proof.
  intros Hd.
  destruct (declaration_line_shape _ Hd)
    as (a & b & c & d & t & E & _ & _ & _ & _ & Hkw).
  unfold skipped. rewrite E.
  assert (Hn : str_eqb (a :: b :: c :: d :: t) [] = false)
    by (apply str_eqb_neq; discriminate).
  rewrite Hn. unfold lit. cbn [orb list_ascii_of_string startswith].
  destruct (Ascii.eqb_spec "/"%char a) as [<- | _]; [|reflexivity].
  vm_compute in Hkw. discriminate.
Qed.

(** X3. A blank line or a comment line never declares a variable: the line the
    first loop takes as a declaration is always one the second loop
    scans. *)
Theorem skipped_lines_declare_nothing raw :
  skipped raw = true -> declaration raw = None.
Proof.
  intros Hs. unfold declaration.
  destruct (is_declaration_line raw) eqn:Hd; [|reflexivity].
  rewrite (declaration_line_not_skipped raw Hd) in Hs. discriminate.
Qed.

Lemma skipped_lines_declare_nothing_witness :
  skipped (lit "  // VAR x 5") = true /\ declaration (lit "  // VAR x 5") = None.
Proof.
  assert (H : skipped (lit "  // VAR x 5") = true) by reflexivity.
  exact (conj H (skipped_lines_declare_nothing _ H)).
Defined.

Lemma fold_left_declare_none items : forall vars,
  (forall item, In item items -> declaration (snd item) = None) ->
  fold_left declare items vars = vars.
Proof.
  induction items as [|item items IH]; intros vars H; simpl; [reflexivity|].
  unfold declare at 2. rewrite (H item (or_introl eq_refl)).
  apply IH. intros it Hit. apply H. right. exact Hit.
Qed.

Lemma flat_map_nil {A B} (f : A -> list B) l :
  (forall x, In x l -> f x = []) -> flat_map f l = [].
Proof.
  induction l as [|x l IH]; intros H; simpl; [reflexivity|].
  rewrite (H x (or_introl eq_refl)). apply IH.
  intros y Hy. apply H. right. exact Hy.
Qed.

(** X4. A document made of blank lines and comment lines only yields no symbol
    and no diagnostic, whatever the comments contain. *)
Theorem skipped_document_is_clean txt :
  (forall ln raw, line_at (splitlines false txt) ln = Some raw -> skipped raw = true) ->
  parse_document txt = Ok ([], []).
Proof.
  intros H. rewrite parse_document_eq.
  assert (Hs : symbols_of_lines (splitlines false txt) = []).
  { apply fold_left_declare_none. intros [ln raw] Hin. simpl.
    apply in_enumerate in Hin. unfold declaration.
    destruct (is_declaration_line raw) eqn:Hd; [|reflexivity].
    specialize (H _ _ Hin).
    rewrite (declaration_line_not_skipped raw Hd) in H. discriminate. }
  unfold diagnostics_of_lines. rewrite Hs. f_equal. f_equal.
  apply flat_map_nil. intros [ln raw] Hin. unfold line_diagnostics.
  cbn [fst snd]. apply in_enumerate in Hin. rewrite (H _ _ Hin). reflexivity.
Qed.

Lemma skipped_document_is_clean_witness :
  (forall ln raw,
     line_at (splitlines false comments_only) ln = Some raw -> skipped raw = true) /\
  parse_document comments_only = Ok ([], []).
Proof.
  assert (H : forall ln raw,
             line_at (splitlines false comments_only) ln = Some raw ->
             skipped raw = true).
  { intros ln raw Hl. apply in_enumerate in Hl. vm_compute in Hl.
    repeat (destruct Hl as [Hl | Hl]; [injection Hl as _ <-; reflexivity|]).
    contradiction. }
  exact (conj H (skipped_document_is_clean _ H)).
Defined.

(** ** Shape and order of the diagnostics *)

(** X6. Every diagnostic lies on a line of the document, on that one line, and
    covers at least one character of the trimmed line; its message quotes
    the text of the trimmed line under its range. *)
Theorem diagnostics_well_formed txt :
  exists vars diags,
    parse_document txt = Ok (vars, diags) /\
    forall d, In d diags ->
      exists raw,
        line_at (splitlines false txt) (line (range_start (diag_range d))) = Some raw /\
        line (range_end (diag_range d)) = line (range_start (diag_range d)) /\
        0 <= character (range_start (diag_range d)) /\
        character (range_start (diag_range d))
          < character (range_end (diag_range d)) <= len (strip raw) /\
        message d =
          lit "Undefined identifier: '"
          ++ slice (strip raw) (character (range_start (diag_range d)))
                   (character (range_end (diag_range d)))
          ++ lit "'" /\
        severity d = Error /\ source d = lit "MyOPL".
Proof.
  exists (symbols_of_lines (splitlines false txt)),
         (diagnostics_of_lines (splitlines false txt)).
  split; [apply parse_document_eq|].
  intros d Hd. apply in_diagnostics in Hd.
  destruct Hd as (ln & raw & start & w & Hl & _ & T & _ & ->).
  destruct T as (pre & post & E & L & I & _ & _).
  assert (Hw : (0 < length w)%nat) by (destruct w; [discriminate | simpl; lia]).
  exists raw. unfold undefined_identifier, match_of, slice, len.
  cbn [diag_range range_start range_end line character message severity source
       m_start m_group1].
  split; [exact Hl|]. split; [reflexivity|]. split; [lia|]. split.
  - rewrite E, !length_app. lia.
  - split; [|split; reflexivity].
    replace (Z.to_nat (Z.of_nat start + Z.of_nat (length w) - Z.of_nat start))
      with (length w) by lia.
    rewrite Nat2Z.id, E, <- L, skipn_app, Nat.sub_diag, skipn_all.
    simpl. rewrite firstn_app, Nat.sub_diag, firstn_all. simpl.
    rewrite app_nil_r. reflexivity.
Qed.

Lemma SSorted_app {A} (R : A -> A -> Prop) (l1 l2 : list A) :
  StronglySorted R l1 -> StronglySorted R l2 ->
  (forall a b, In a l1 -> In b l2 -> R a b) ->
  StronglySorted R (l1 ++ l2).
Proof.
  intros H1 H2 H. induction H1 as [|a l1 Hs IH Hf]; simpl; [exact H2|].
  constructor.
  - apply IH. intros x y Hx Hy. apply H; [right; exact Hx | exact Hy].
  - apply Forall_app. split; [exact Hf|].
    apply Forall_forall. intros y Hy. apply H; [left; reflexivity | exact Hy].
Qed.

Lemma SSorted_filter {A} (R : A -> A -> Prop) f (l : list A) :
  StronglySorted R l -> StronglySorted R (filter f l).
Proof.
  intros H. induction H as [|a l Hs IH Hf]; simpl; [constructor|].
  destruct (f a); [|exact IH]. constructor; [exact IH|].
  apply Forall_forall. intros y Hy. apply filter_In in Hy.
  rewrite Forall_forall in Hf. apply Hf, Hy.
Qed.

Lemma SSorted_map {A B} (f : A -> B) (R : A -> A -> Prop) (R' : B -> B -> Prop) l :
  (forall a b, R a b -> R' (f a) (f b)) ->
  StronglySorted R l -> StronglySorted R' (map f l).
Proof.
  intros Hf H. induction H as [|a l Hs IH Ha]; simpl; constructor; [exact IH|].
  apply Forall_forall. intros y Hy. apply in_map_iff in Hy.
  destruct Hy as (x & <- & Hx). rewrite Forall_forall in Ha. auto.
Qed.

Lemma finditer_from_sorted s : forall prev pos busy,
  StronglySorted (fun a b => m_start a < m_start b) (finditer_from prev pos busy s).
Proof.
  induction s as [|c t IH]; intros prev pos busy; simpl; [constructor|].
  destruct busy as [|b]; [|apply IH].
  destruct (match_at prev (c :: t)) as [n|]; [|apply IH].
  constructor; [apply IH|].
  apply Forall_forall. intros m Hm. apply finditer_from_start in Hm. simpl. lia.
Qed.

Lemma line_diagnostics_sorted valid item :
  StronglySorted (fun d1 d2 => before (diag_start d1) (diag_start d2))
    (line_diagnostics valid item).
Proof.
  unfold line_diagnostics. destruct (skipped (snd item)); [constructor|].
  apply SSorted_map with (R := fun a b => m_start a < m_start b).
  - intros a b Hab. right. simpl. split; [reflexivity | exact Hab].
  - apply SSorted_filter, finditer_from_sorted.
Qed.

(** X7. The diagnostics come in document order: each starts on a later line
    than the one before it, or further right on the same line. *)
Theorem diagnostics_in_document_order txt :
  exists vars diags,
    parse_document txt = Ok (vars, diags) /\
    StronglySorted (fun d1 d2 => before (diag_start d1) (diag_start d2)) diags.
Proof.
  exists (symbols_of_lines (splitlines false txt)),
         (diagnostics_of_lines (splitlines false txt)).
  split; [apply parse_document_eq|].
  unfold diagnostics_of_lines.
  generalize (keys (symbols_of_lines (splitlines false txt)) ++ keys BUILTIN_FUNCTIONS).
  intros valid.
  induction (splitlines false txt) as [|x lines IH] using rev_ind; [constructor|].
  rewrite enumerate_snoc, flat_map_app. simpl. rewrite app_nil_r.
  apply SSorted_app; [exact IH | apply line_diagnostics_sorted |].
  intros a b Ha Hb. left. unfold diag_start. simpl.
  apply line_diagnostics_line in Hb. rewrite Hb.
  apply in_flat_map in Ha. destruct Ha as ([n raw] & Hin & Ha).
  apply line_diagnostics_line in Ha. rewrite Ha.
  apply in_enumerate, line_at_bound in Hin. lia.
Qed.

(** ** Completion *)

Lemma builtin_item_app a b x :
  builtin_item (a ++ b) x = (r <- builtin_item b x ;; Ok (a ++ r)).
Proof.
  unfold builtin_item.
  destruct (dict_getitem BUILTIN_FUNCTIONS x) as [descr|e]; cbn [bind]; [|reflexivity].
  rewrite app_assoc. reflexivity.
Qed.

Lemma for_each_builtin_app xs : forall a b,
  for_each xs builtin_item (a ++ b) =
  (r <- for_each xs builtin_item b ;; Ok (a ++ r)).
Proof.
  induction xs as [|x xs IH]; intros a b; cbn [for_each]; [reflexivity|].
  rewrite builtin_item_app.
  destruct (builtin_item b x) as [r|e]; cbn [bind]; [apply IH | reflexivity].
Qed.

Lemma completions_static :
  exists rest,
    for_each (keys BUILTIN_FUNCTIONS) builtin_item (map keyword_item KEYWORDS) = Ok rest /\
    map label rest = KEYWORDS ++ keys BUILTIN_FUNCTIONS /\
    Forall (fun it => is_variable_item it = false) rest.
Proof.
  eexists. split; [vm_compute; reflexivity|]. split; [vm_compute; reflexivity|].
  repeat (apply Forall_cons; [reflexivity|]). apply Forall_nil.
Qed.

Lemma completions_stored ds uri st :
  dict_get ds uri = Some st ->
  exists rest,
    completions ds uri = Ok (map variable_item (variables st) ++ rest) /\
    map label rest = KEYWORDS ++ keys BUILTIN_FUNCTIONS /\
    Forall (fun it => is_variable_item it = false) rest /\
    forall u, dict_in u ds = false -> completions ds u = Ok rest.
Proof.
  intros Hst. destruct completions_static as (rest & Hr & Hl & Hk).
  exists rest. split; [|split; [exact Hl | split; [exact Hk|]]].
  - unfold completions, dict_getitem. rewrite (dict_in_get _ _ _ Hst), Hst.
    cbn [bind app]. rewrite for_each_builtin_app, Hr. reflexivity.
  - intros u Hu. unfold completions. rewrite Hu. cbn [bind app]. exact Hr.
Qed.

(** X9. For a stored document [completions] never raises and offers, in this
    order, one variable candidate for each symbol of the snapshot, in the
    order of the symbol table, then the keyword and builtin candidates, which
    are those a document without a snapshot gets. *)
Theorem completions_of_stored_document ds uri st :
  dict_get ds uri = Some st ->
  exists rest,
    completions ds uri = Ok (map variable_item (variables st) ++ rest) /\
    map label (map variable_item (variables st)) = keys (variables st) /\
    map label rest = KEYWORDS ++ keys BUILTIN_FUNCTIONS /\
    Forall (fun it => item_kind it <> Variable_) rest /\
    forall u, dict_in u ds = false -> completions ds u = Ok rest.
Proof.
  intros Hst. destruct (completions_stored ds uri st Hst) as (rest & Hc & Hl & Hk & Hu).
  exists rest. split; [exact Hc|]. split.
  - rewrite map_map. reflexivity.
  - split; [exact Hl|]. split; [|exact Hu].
    eapply Forall_impl; [|exact Hk].
    intros it Hit E. unfold is_variable_item in Hit. rewrite E in Hit. discriminate.
Qed.

Lemma completions_of_stored_document_witness :
  dict_get (opened scenario) demo_uri = Some scenario_snapshot /\
  exists rest,
    completions (opened scenario) demo_uri
    = Ok (map variable_item (variables scenario_snapshot) ++ rest) /\
    map label (map variable_item (variables scenario_snapshot))
    = keys (variables scenario_snapshot) /\
    map label rest = KEYWORDS ++ keys BUILTIN_FUNCTIONS /\
    Forall (fun it => item_kind it <> Variable_) rest /\
    forall u, dict_in u (opened scenario) = false ->
              completions (opened scenario) u = Ok rest.
Proof.
  assert (H : dict_get (opened scenario) demo_uri = Some scenario_snapshot)
    by reflexivity.
  exact (conj H (completions_of_stored_document _ _ _ H)).
Defined.

Lemma filter_variable_items (vars : Variables) rest :
  Forall (fun it => is_variable_item it = false) rest ->
  filter is_variable_item (map variable_item vars ++ rest) = map variable_item vars.
Proof.
  intros Hr. rewrite filter_app.
  assert (H1 : filter is_variable_item (map variable_item vars) = map variable_item vars).
  { induction vars as [|e vars IH]; simpl; [reflexivity|]. rewrite IH. reflexivity. }
  assert (H2 : filter is_variable_item rest = []).
  { induction Hr as [|it rest Hit _ IH]; simpl; [reflexivity|]. rewrite Hit. exact IH. }
  rewrite H1, H2. apply app_nil_r.
Qed.

(** X10. After [did_open], the variable candidates of the document are its
    declared names, each offered once. *)
Theorem completions_after_open ds uri txt :
  exists ds' pub items,
    did_open ds uri txt = Ok (ds', pub) /\
    completions ds' uri = Ok items /\
    NoDup (map label (filter is_variable_item items)) /\
    forall name,
      In name (map label (filter is_variable_item items)) <->
      exists ln col val, declares (splitlines false txt) ln name col val.
Proof.
  set (lines := splitlines false txt).
  set (snap := {| text := txt; variables := symbols_of_lines lines |}).
  assert (Hget : dict_get (dict_set ds uri snap) uri = Some snap).
  { rewrite dict_get_set, str_eqb_refl. reflexivity. }
  destruct (completions_stored _ _ _ Hget) as (rest & Hc & _ & Hk & _).
  exists (dict_set ds uri snap), (uri, diagnostics_of_lines lines),
         (map variable_item (variables snap) ++ rest).
  split.
  { unfold did_open. rewrite parse_document_eq. reflexivity. }
  split; [exact Hc|].
  rewrite (filter_variable_items _ _ Hk), map_map.
  change (map (fun x => label (variable_item x)) (variables snap))
    with (keys (symbols_of_lines lines)).
  split; [apply symbols_NoDup|].
  intros name. rewrite <- dict_in_keys. split.
  - intros Hin. unfold dict_in in Hin.
    destruct (dict_get (symbols_of_lines lines) name) as [[[ln col] val]|] eqn:G;
      [|discriminate].
    exists ln, col, val. apply (symbols_lookup _ _ _ _ _ G).
  - intros (ln & col & val & Hd). eapply symbols_declared; eauto.
Qed.

(** ** The document store *)

Lemma dict_set_set {V} (d : dict V) k v1 v2 :
  dict_set (dict_set d k v1) k v2 = dict_set d k v2.
Proof.
  induction d as [|[k0 v0] d IH]; simpl.
  - rewrite str_eqb_refl. reflexivity.
  - destruct (str_eqb k0 k) eqn:E; simpl; rewrite E; [reflexivity|].
    rewrite IH. reflexivity.
Qed.

Lemma dict_get_set_other {V} (d : dict V) k v u :
  u <> k -> dict_get (dict_set d k v) u = dict_get d u.
Proof.
  intros H. rewrite dict_get_set.
  assert (E : str_eqb k u = false) by (apply str_eqb_neq; congruence).
  rewrite E. reflexivity.
Qed.

(** X11. [did_open] and [did_change] touch the snapshot of their document only:
    the snapshots of the other documents are kept as they are, no document
    leaves the store, the store gains at most the opened document, at the
    end, and holds each document once if it did so before. *)
Theorem handlers_update_one_snapshot ls ds uri txt :
  exists ds1 pub1 ds2 pub2,
    did_open ds uri txt = Ok (ds1, pub1) /\
    did_change ls ds uri = Ok (ds2, pub2) /\
    (forall u, u <> uri ->
       dict_get ds1 u = dict_get ds u /\ dict_get ds2 u = dict_get ds u) /\
    keys ds1 = (if dict_in uri ds then keys ds else keys ds ++ [uri]) /\
    keys ds2 = keys ds1 /\
    (NoDup (keys ds) -> NoDup (keys ds1)).
Proof.
  unfold did_open, did_change. rewrite !parse_document_eq. cbn [bind].
  do 4 eexists. split; [reflexivity|]. split; [reflexivity|]. split.
  - intros u Hu. rewrite !dict_get_set_other by exact Hu. split; reflexivity.
  - rewrite !keys_dict_set. split; [reflexivity|]. split; [reflexivity|].
    intros Hn. rewrite <- (keys_dict_set ds uri {| text := txt; variables := [] |}).
    apply NoDup_keys_dict_set. exact Hn.
Qed.

(** X12. Opening a document again replaces its snapshot: the store after two
    openings is the store after the second alone. *)
Theorem reopening_replaces_snapshot ds uri txt1 txt2 :
  exists ds1 pub1 ds2 pub2,
    did_open ds uri txt1 = Ok (ds1, pub1) /\
    did_open ds1 uri txt2 = Ok (ds2, pub2) /\
    did_open ds uri txt2 = Ok (ds2, pub2).
Proof.
  unfold did_open. rewrite !parse_document_eq. cbn [bind].
  do 4 eexists. split; [reflexivity|]. split; [reflexivity|].
  rewrite dict_set_set. reflexivity.
Qed.

(** ** What the queries read *)

Lemma for_return_ext {A B} (f g : A -> result (option B)) xs :
  (forall x, f x = g x) -> for_return f xs = for_return g xs.
Proof.
  intros H. induction xs as [|x xs IH]; simpl; [reflexivity|].
  rewrite H, IH. reflexivity.
Qed.

Lemma queries_read_own_snapshot ls ds1 ds2 uri pos :
  dict_get ds1 uri = dict_get ds2 uri ->
  definition ls ds1 uri pos = definition ls ds2 uri pos /\
  hover ls ds1 uri pos = hover ls ds2 uri pos /\
  completions ds1 uri = completions ds2 uri.
Proof.
  intros H.
  assert (Hin : dict_in uri ds1 = dict_in uri ds2) by (unfold dict_in; rewrite H; reflexivity).
  assert (Hget : dict_getitem ds1 uri = dict_getitem ds2 uri)
    by (unfold dict_getitem; rewrite H; reflexivity).
  unfold definition, hover, completions. rewrite Hin, Hget.
  split; [|split; [|reflexivity]].
  - destruct (dict_in uri ds2); cbn [negb]; [|reflexivity].
    destruct (getitem (doc_lines (get_document ls uri)) (line pos)); [|reflexivity].
    cbn [bind]. apply for_return_ext. intros mt.
    unfold definition_match. rewrite Hget. reflexivity.
  - destruct (dict_in uri ds2); cbn [negb]; [|reflexivity].
    destruct (getitem (doc_lines (get_document ls uri)) (line pos)); [|reflexivity].
    cbn [bind]. apply for_return_ext. intros mt.
    unfold hover_match. rewrite Hget. reflexivity.
Qed.

(** X13. Opening or changing one document leaves the answers to the queries on
    every other document as they were. *)
Theorem other_documents_unaffected ls ds uri txt u pos :
  u <> uri ->
  exists ds1 pub1 ds2 pub2,
    did_open ds uri txt = Ok (ds1, pub1) /\
    did_change ls ds uri = Ok (ds2, pub2) /\
    definition ls ds1 u pos = definition ls ds u pos /\
    hover ls ds1 u pos = hover ls ds u pos /\
    completions ds1 u = completions ds u /\
    definition ls ds2 u pos = definition ls ds u pos /\
    hover ls ds2 u pos = hover ls ds u pos /\
    completions ds2 u = completions ds u.
Proof.
  intros Hu. unfold did_open, did_change. rewrite !parse_document_eq. cbn [bind].
  do 4 eexists. split; [reflexivity|]. split; [reflexivity|].
  match goal with
  | |- context [dict_set ds uri ?s1] =>
      destruct (queries_read_own_snapshot ls (dict_set ds uri s1) ds u pos
                  (dict_get_set_other ds uri s1 u Hu)) as (D1 & H1 & C1)
  end.
  rewrite D1, H1, C1. split; [reflexivity|]. split; [reflexivity|].
  split; [reflexivity|].
  apply queries_read_own_snapshot. apply dict_get_set_other. exact Hu.
Qed.

Lemma other_documents_unaffected_witness :
  other_uri <> demo_uri /\
  exists ds1 pub1 ds2 pub2,
    did_open (opened scenario) demo_uri shadowing = Ok (ds1, pub1) /\
    did_change (serving shadowing) (opened scenario) demo_uri = Ok (ds2, pub2) /\
    definition (serving shadowing) ds1 other_uri on_age
    = definition (serving shadowing) (opened scenario) other_uri on_age /\
    hover (serving shadowing) ds1 other_uri on_age
    = hover (serving shadowing) (opened scenario) other_uri on_age /\
    completions ds1 other_uri = completions (opened scenario) other_uri /\
    definition (serving shadowing) ds2 other_uri on_age
    = definition (serving shadowing) (opened scenario) other_uri on_age /\
    hover (serving shadowing) ds2 other_uri on_age
    = hover (serving shadowing) (opened scenario) other_uri on_age /\
    completions ds2 other_uri = completions (opened scenario) other_uri.
Proof.
  assert (H : other_uri <> demo_uri) by (vm_compute; discriminate).
  exact (conj H (other_documents_unaffected _ _ _ _ _ _ H)).
Defined.

(** ** When the resolvers answer *)

Lemma for_return_some {A B} (body : A -> result (option B)) xs v :
  for_return body xs = Ok (Some v) -> exists x, In x xs /\ body x = Ok (Some v).
Proof.
  induction xs as [|x xs IH]; simpl; [discriminate|].
  destruct (body x) as [[b|]|e] eqn:E; simpl.
  - intros [= <-]. exists x. split; [left; reflexivity | exact E].
  - intros H. destruct (IH H) as (y & Hy & Ey). exists y. split; [right|]; assumption.
  - discriminate.
Qed.

Lemma answer_on_token {B} (body : Match -> result (option B))
  ls (ds : DocumentStates) uri pos (v : B) :
  (if negb (dict_in uri ds) then Ok None
   else ln <- getitem (doc_lines (get_document ls uri)) (line pos) ;;
        for_return body (finditer ln)) = Ok (Some v) ->
  exists st l start w,
    dict_get ds uri = Some st /\
    getitem (doc_lines (get_document ls uri)) (line pos) = Ok l /\
    is_token l start w /\ body (match_of start w) = Ok (Some v).
Proof.
  unfold dict_in. destruct (dict_get ds uri) as [st|]; cbn [negb]; [|discriminate].
  destruct (getitem (doc_lines (get_document ls uri)) (line pos)) as [l|e];
    cbn [bind]; [|discriminate].
  intros H. apply for_return_some in H. destruct H as (mt & Hin & Hb).
  apply finditer_tokens in Hin. destruct Hin as (start & w & T & ->).
  exists st, l, start, w. repeat split; assumption.
Qed.

(** X14. [definition] gives a location only with the cursor on a token of the
    cursor line that is a name of the snapshot's symbol table, and the
    location is that symbol's. *)
Theorem definition_only_on_declared_token ls ds uri pos loc :
  definition ls ds uri pos = Ok (Some loc) ->
  exists st l start w ln col val,
    dict_get ds uri = Some st /\
    getitem (doc_lines (get_document ls uri)) (line pos) = Ok l /\
    is_token l start w /\ cursor_on pos start w /\
    dict_get (variables st) w = Some (ln, col, val) /\
    loc = {| loc_uri := uri;
             loc_range :=
               {| range_start := {| line := ln; character := col |};
                  range_end := {| line := ln; character := col + len w |} |} |}.
Proof.
  intros H. apply answer_on_token in H.
  destruct H as (st & l & start & w & Hst & Hl & T & Hb).
  unfold definition_match in Hb.
  destruct (under_cursor (match_of start w) pos) eqn:U; [|discriminate].
  apply under_cursor_match_of in U. cbn [m_group1 match_of] in Hb.
  unfold dict_getitem, dict_in in Hb. rewrite Hst in Hb. cbn [bind] in Hb.
  destruct (dict_get (variables st) w) as [[[ln col] val]|] eqn:G; [|discriminate].
  cbn [bind] in Hb. injection Hb as <-.
  exists st, l, start, w, ln, col, val.
  split; [exact Hst|]. split; [exact Hl|]. split; [exact T|]. split; [exact U|].
  split; [exact G | reflexivity].
Qed.

Lemma definition_only_on_declared_token_witness :
  definition (serving scenario) (opened scenario) demo_uri on_age
  = Ok (Some {| loc_uri := demo_uri; loc_range := token_range 0 4 (lit "age") |}) /\
  exists st l start w ln col val,
    dict_get (opened scenario) demo_uri = Some st /\
    getitem (doc_lines (get_document (serving scenario) demo_uri)) (line on_age) = Ok l /\
    is_token l start w /\ cursor_on on_age start w /\
    dict_get (variables st) w = Some (ln, col, val) /\
    {| loc_uri := demo_uri; loc_range := token_range 0 4 (lit "age") |}
    = {| loc_uri := demo_uri;
         loc_range :=
           {| range_start := {| line := ln; character := col |};
              range_end := {| line := ln; character := col + len w |} |} |}.
Proof.
  assert (H : definition (serving scenario) (opened scenario) demo_uri on_age
              = Ok (Some {| loc_uri := demo_uri;
                            loc_range := token_range 0 4 (lit "age") |}))
    by reflexivity.
  exact (conj H (definition_only_on_declared_token _ _ _ _ _ H)).
Defined.

(** X15. [hover] gives an answer only with the cursor on a token of the cursor
    line that is a symbol of the snapshot, a builtin, or a keyword in some
    letter case. *)
Theorem hover_only_on_known_token ls ds uri pos h :
  hover ls ds uri pos = Ok (Some h) ->
  exists st l start w,
    dict_get ds uri = Some st /\
    getitem (doc_lines (get_document ls uri)) (line pos) = Ok l /\
    is_token l start w /\ cursor_on pos start w /\
    (dict_in w (variables st) = true \/
     dict_in w BUILTIN_FUNCTIONS = true \/
     list_in (upper w) KEYWORDS = true).
Proof.
  intros H. apply answer_on_token in H.
  destruct H as (st & l & start & w & Hst & Hl & T & Hb).
  unfold hover_match in Hb.
  destruct (under_cursor (match_of start w) pos) eqn:U; [|discriminate].
  apply under_cursor_match_of in U. cbn [m_group1 match_of] in Hb.
  exists st, l, start, w.
  split; [exact Hst|]. split; [exact Hl|]. split; [exact T|]. split; [exact U|].
  unfold dict_getitem in Hb at 1. rewrite Hst in Hb. cbn [bind] in Hb.
  destruct (dict_in w (variables st)) eqn:E1; [left; reflexivity|].
  destruct (dict_in w BUILTIN_FUNCTIONS) eqn:E2; [right; left; reflexivity|].
  destruct (list_in (upper w) KEYWORDS) eqn:E3; [right; right; reflexivity|].
  discriminate.
Qed.

Lemma hover_only_on_known_token_witness :
  hover (serving scenario) (opened scenario) demo_uri on_age
  = Ok (Some (variable_hover (lit "age") (lit "= 10") on_age (match_of 6 (lit "age")))) /\
  exists st l start w,
    dict_get (opened scenario) demo_uri = Some st /\
    getitem (doc_lines (get_document (serving scenario) demo_uri)) (line on_age) = Ok l /\
    is_token l start w /\ cursor_on on_age start w /\
    (dict_in w (variables st) = true \/
     dict_in w BUILTIN_FUNCTIONS = true \/
     list_in (upper w) KEYWORDS = true).
Proof.
  assert (H : hover (serving scenario) (opened scenario) demo_uri on_age
              = Ok (Some (variable_hover (lit "age") (lit "= 10") on_age
                            (match_of 6 (lit "age"))))) by reflexivity.
  exact (conj H (hover_only_on_known_token _ _ _ _ _ H)).
Defined.

(** X16. With the cursor on a line of the document but on no token, both
    resolvers answer [None]. *)
Theorem no_token_no_answer ls ds uri pos l :
  getitem (doc_lines (get_document ls uri)) (line pos) = Ok l ->
  (forall start w, is_token l start w -> ~ cursor_on pos start w) ->
  definition ls ds uri pos = Ok None /\ hover ls ds uri pos = Ok None.
Proof.
  intros Hl Hno.
  assert (Hout : forall mt, In mt (finditer l) -> under_cursor mt pos = false).
  { intros mt Hin. apply finditer_tokens in Hin. destruct Hin as (start & w & T & ->).
    destruct (under_cursor (match_of start w) pos) eqn:U; [|reflexivity].
    apply under_cursor_match_of in U. exfalso. eapply Hno; eauto. }
  unfold definition, hover. destruct (dict_in uri ds); cbn [negb]; [|split; reflexivity].
  rewrite Hl. cbn [bind]. split; apply for_return_none; intros mt Hin.
  - unfold definition_match. rewrite (Hout mt Hin). reflexivity.
  - unfold hover_match. rewrite (Hout mt Hin). reflexivity.
Qed.

Lemma no_token_no_answer_witness :
  getitem (doc_lines (get_document (serving scenario) demo_uri)) (line after_call)
  = Ok print_line /\
  (forall start w, is_token print_line start w -> ~ cursor_on after_call start w) /\
  definition (serving scenario) (opened scenario) demo_uri after_call = Ok None /\
  hover (serving scenario) (opened scenario) demo_uri after_call = Ok None.
Proof.
  assert (H1 : getitem (doc_lines (get_document (serving scenario) demo_uri))
                 (line after_call) = Ok print_line) by reflexivity.
  assert (H2 : forall start w,
             is_token print_line start w -> ~ cursor_on after_call start w).
  { intros start w T C. apply under_cursor_match_of in C.
    assert (Hin : In (match_of start w) (finditer print_line))
      by (apply finditer_tokens; eauto).
    assert (L : finditer print_line
                = [match_of 0 (lit "print"); match_of 6 (lit "age")]) by reflexivity.
    rewrite L in Hin.
    destruct Hin as [Hin | [Hin | []]]; rewrite <- Hin in C; vm_compute in C;
      discriminate. }
  exact (conj H1 (conj H2 (no_token_no_answer _ _ _ _ _ H1 H2))).
Defined.

(** ** From a use to its declaration *)

(** X18. After [did_open], a location given by [definition] lies in the document
    that was opened, on one line of it, and the text of the trimmed line
    between its two columns is the token under the cursor. *)
Theorem definition_lands_on_name ls ds uri txt ds' pub pos loc :
  did_open ds uri txt = Ok (ds', pub) ->
  definition ls ds' uri pos = Ok (Some loc) ->
  exists raw l start w,
    loc_uri loc = uri /\
    getitem (doc_lines (get_document ls uri)) (line pos) = Ok l /\
    is_token l start w /\ cursor_on pos start w /\
    line_at (splitlines false txt) (line (range_start (loc_range loc))) = Some raw /\
    line (range_end (loc_range loc)) = line (range_start (loc_range loc)) /\
    0 <= character (range_start (loc_range loc)) /\
    character (range_end (loc_range loc)) <= len (strip raw) /\
    slice (strip raw) (character (range_start (loc_range loc)))
          (character (range_end (loc_range loc))) = w.
Proof.
  unfold did_open. rewrite parse_document_eq. cbn [bind]. intros [= <- _] H.
  apply answer_on_token in H.
  destruct H as (st & l & start & w & Hst & Hl & T & Hb).
  rewrite dict_get_set, str_eqb_refl in Hst. injection Hst as <-.
  unfold definition_match in Hb.
  destruct (under_cursor (match_of start w) pos) eqn:U; [|discriminate].
  apply under_cursor_match_of in U. cbn [m_group1 match_of] in Hb.
  unfold dict_getitem, dict_in in Hb.
  rewrite dict_get_set, str_eqb_refl in Hb. cbn [bind variables] in Hb.
  destruct (dict_get (symbols_of_lines (splitlines false txt)) w)
    as [[[ln col] val]|] eqn:G; [|discriminate].
  cbn [bind] in Hb. injection Hb as <-.
  destruct (symbols_spell_name _ _ _ _ _ G) as (raw & Hraw & H0 & Hlen & Hsl).
  exists raw, l, start, w.
  cbn [loc_uri loc_range range_start range_end line character].
  split; [reflexivity|]. split; [exact Hl|]. split; [exact T|]. split; [exact U|].
  split; [exact Hraw|]. split; [reflexivity|]. split; [exact H0|].
  split; [exact Hlen | exact Hsl].
Qed.

Lemma definition_lands_on_name_witness :
  did_open [] demo_uri scenario
  = Ok (opened scenario,
        (demo_uri,
         [undefined_identifier 2 (match_of 0 (lit "printx"))])) /\
  definition (serving scenario) (opened scenario) demo_uri on_age
  = Ok (Some {| loc_uri := demo_uri; loc_range := token_range 0 4 (lit "age") |}) /\
  exists raw l start w,
    loc_uri {| loc_uri := demo_uri; loc_range := token_range 0 4 (lit "age") |}
    = demo_uri /\
    getitem (doc_lines (get_document (serving scenario) demo_uri)) (line on_age) = Ok l /\
    is_token l start w /\ cursor_on on_age start w /\
    line_at (splitlines false scenario) 0 = Some raw /\
    0 = 0 /\ 0 <= 4 /\ 4 + len (lit "age") <= len (strip raw) /\
    slice (strip raw) 4 (4 + len (lit "age")) = w.
Proof.
  assert (H1 : did_open [] demo_uri scenario
               = Ok (opened scenario,
                     (demo_uri,
                      [undefined_identifier 2 (match_of 0 (lit "printx"))])))
    by reflexivity.
  assert (H2 : definition (serving scenario) (opened scenario) demo_uri on_age
               = Ok (Some {| loc_uri := demo_uri;
                             loc_range := token_range 0 4 (lit "age") |}))
    by reflexivity.
  exact (conj H1 (conj H2 (definition_lands_on_name _ _ _ _ _ _ _ _ H1 H2))).
Defined.

(** ** Diagnostics and the columns of the document *)

(** X8. Every diagnostic reports a token of its line of the document, and
    starts as many columns to the left of that token as the line has
    leading whitespace: on a line that is not indented the range is the
    token's. *)
Theorem diagnostics_left_of_tokens txt :
  exists vars diags,
    parse_document txt = Ok (vars, diags) /\
    forall d, In d diags ->
      exists raw start w,
        line_at (splitlines false txt) (line (range_start (diag_range d))) = Some raw /\
        is_token raw start w /\
        character (range_start (diag_range d)) = Z.of_nat start - Z.of_nat (indent raw) /\
        character (range_end (diag_range d))
        = character (range_start (diag_range d)) + len w.
Proof.
  exists (symbols_of_lines (splitlines false txt)),
         (diagnostics_of_lines (splitlines false txt)).
  split; [apply parse_document_eq|].
  intros d Hd. apply in_diagnostics in Hd.
  destruct Hd as (ln & raw & start & w & Hl & _ & T & _ & ->).
  exists raw, (indent raw + start)%nat, w.
  unfold undefined_identifier, match_of.
  cbn [diag_range range_start range_end line character m_start m_group1].
  split; [exact Hl|]. split; [apply trimmed_token_in_line; exact T|].
  split; [lia | reflexivity].
Qed.

Lemma resolvers_ok_on_document_lines_witness :
  getitem (doc_lines (get_document (serving scenario) demo_uri)) (line after_call)
  = Ok print_line /\
  (exists r, definition (serving scenario) (opened scenario) demo_uri after_call = Ok r) /\
  (exists r, hover (serving scenario) (opened scenario) demo_uri after_call = Ok r).
Proof.
  assert (H : getitem (doc_lines (get_document (serving scenario) demo_uri))
                (line after_call) = Ok print_line) by reflexivity.
  exact (conj H (resolvers_ok_on_document_lines _ (opened scenario) _ _ _ H)).
Defined.
